(** * Cijitter: the detection-and-mitigation control loop of runsc/main.go

    A shallow embedding of the monitor side of [gvisor/runsc/main.go]:
    the sample-log decoder ([read_sample_logs]), the profiler driver
    ([chk_prerequisites], [exit_handler], [get_target_addr]), the decision
    engine ([delayStates], [judge_delay]) and the control loop ([monitor]).

    Modelling conventions.
    - Go's [int], [int64] and [time.Duration] are 64-bit two's complement
      integers: a value is a [Z] and every arithmetic result goes through
      [Int64.wrap].  [%] is Go's truncated remainder, [Z.rem].
    - [float64] is IEEE 754 binary64 with round-to-nearest-even, taken from
      the standard library's executable specification [SpecFloat]
      (precision 53, emax 1024).  An expression [x*y + z] is evaluated as
      two rounded operations (no fused multiply-add, the amd64 behaviour).
    - A fixed array [[3]T] is a record of three fields; indexing outside
      0..2 is the run-time panic of Go and is modelled by [None].
    - Blocking sends on the channel and sleeps are recorded as a trace of
      events, in program order. *)

From Stdlib Require Import ZArith Lia List String Ascii.
From Stdlib Require Import DecimalString HexadecimalString HexadecimalPos.
From Stdlib Require Import HexadecimalZ SpecFloat.
From coqutil Require Import Word.LittleEndianList.
From stdpp Require Import gmap strings list.
From Equations Require Import Equations.

Open Scope Z_scope.

(** ** Machine integers *)

Module Int64.

Definition modulus : Z := 2 ^ 64.
Definition min_int : Z := - 2 ^ 63.
Definition max_int : Z := 2 ^ 63 - 1.

(** Two's complement reduction into [min_int .. max_int]. *)
Definition wrap (z : Z) : Z := (z + 2 ^ 63) mod modulus - 2 ^ 63.

Definition in_range (z : Z) : Prop := min_int <= z <= max_int.

Definition add (x y : Z) : Z := wrap (x + y).
Definition sub (x y : Z) : Z := wrap (x - y).
Definition mul (x y : Z) : Z := wrap (x * y).

(** Go's [%] on integers truncates towards zero. *)
Definition rem (x y : Z) : Z := Z.rem x y.

End Int64.

(** ** binary64 floating point *)

Module F64.

Definition prec : Z := 53.
Definition emax : Z := 1024.

Definition float := spec_float.

(** [float64(n)] for an integer [n]: the nearest binary64, ties to even. *)
Definition of_int (n : Z) : float := binary_normalize prec emax n 0 false.

Definition add : float -> float -> float := SFadd prec emax.
Definition sub : float -> float -> float := SFsub prec emax.
Definition mul : float -> float -> float := SFmul prec emax.
Definition div : float -> float -> float := SFdiv prec emax.
Definition sqrt : float -> float := SFsqrt prec emax.
Definition leb : float -> float -> bool := SFleb.
Definition ltb : float -> float -> bool := SFltb.

Definition zero : float := S754_zero false.

(** A decimal constant [p/q] of the source is converted to the nearest
    binary64; with [p] and [q] exactly representable this is the
    correctly rounded quotient. *)
Definition c_3_0 : float := Eval vm_compute in of_int 3.
Definition c_100_0 : float := Eval vm_compute in of_int 100.
Definition c_0_1 : float := Eval vm_compute in div (of_int 1) (of_int 10).
Definition c_0_2 : float := Eval vm_compute in div (of_int 2) (of_int 10).
Definition c_0_35 : float := Eval vm_compute in div (of_int 35) (of_int 100).
Definition c_0_67 : float := Eval vm_compute in div (of_int 67) (of_int 100).

(** [int(f)]: truncation towards zero.  For NaN, the infinities and values
    outside the 64-bit range the conversion is implementation-specific in
    Go; amd64 yields the minimal integer. *)
Definition to_int (f : float) : Z :=
  match f with
  | S754_zero _ => 0
  | S754_finite s m e =>
      let mag := if 0 <=? e then Z.pos m * 2 ^ e else Z.pos m / 2 ^ (- e) in
      let v := if s then - mag else mag in
      if (Int64.min_int <=? v) && (v <=? Int64.max_int) then v
      else Int64.min_int
  | _ => Int64.min_int
  end.

End F64.

(** ** Arrays of three elements *)

Module Arr3.

Record t (A : Type) : Type := mk { e0 : A; e1 : A; e2 : A }.
Arguments mk {A} _ _ _.
Arguments e0 {A} _.
Arguments e1 {A} _.
Arguments e2 {A} _.

(** [a[i]]; [None] is the index-out-of-range panic. *)
Definition get {A} (a : t A) (i : Z) : option A :=
  if i =? 0 then Some (e0 a)
  else if i =? 1 then Some (e1 a)
  else if i =? 2 then Some (e2 a)
  else None.

(** [a[i] = v]. *)
Definition set {A} (a : t A) (i : Z) (v : A) : option (t A) :=
  if i =? 0 then Some (mk v (e1 a) (e2 a))
  else if i =? 1 then Some (mk (e0 a) v (e2 a))
  else if i =? 2 then Some (mk (e0 a) (e1 a) v)
  else None.

(** The elements in index order, as visited by [for i := 0; i < 3; i++]. *)
Definition elems {A} (a : t A) : list A := [e0 a; e1 a; e2 a].

End Arr3.

(** ** Decision engine *)

(** [var duration int = 8050] and [var interval int = 500]. *)
Definition duration : Z := 8050.
Definition interval : Z := 500.

(** The loop [for i:=0; i<3; i++ { if last_delay[index%3] { return ... } }]
    of [delayStates], run for [n] iterations: [Some (Some r)] is the early
    return of [r], [Some None] is falling out of the loop. *)
Fixpoint delayStates_loop (n : nat) (last_delay : Arr3.t bool) (index : Z)
    (status : bool) : option (option (Z * bool)) :=
  match n with
  | O => Some None
  | S n' =>
      b ← Arr3.get last_delay (Int64.rem index 3);
      if b : bool then Some (Some (interval, status))
      else delayStates_loop n' last_delay index status
  end.

Definition delayStates (last_delay : Arr3.t bool) (index : Z)
    (delay_interval : Z) : option (Z * bool) :=
  if index =? 0 then Some (interval, true)
  else
    let idx := Int64.rem (Int64.sub index 1) 3 in
    status ← Arr3.get last_delay idx;
    r ← delayStates_loop 3 last_delay index status;
    match r with
    | Some early => Some early
    | None =>
        let delay_interval := Int64.mul delay_interval 10 in
        let delay_interval :=
          if delay_interval >? 30000 then 30000 else delay_interval in
        Some (delay_interval, status)
    end.

(** The quantities [judge_delay] computes before its final test. *)
Definition jd_sum (access : Arr3.t Z) : Z :=
  foldl (fun sum x => Int64.add sum x) 0 (Arr3.elems access).

Definition jd_mean (access : Arr3.t Z) : F64.float :=
  F64.div (F64.of_int (jd_sum access)) F64.c_3_0.

(** [std]: the sum of the squared deviations from [mean]. *)
Definition jd_std (access : Arr3.t Z) : F64.float :=
  let mean := jd_mean access in
  foldl (fun std x =>
           F64.add std (F64.mul (F64.sub (F64.of_int x) mean)
                                (F64.sub (F64.of_int x) mean)))
        F64.zero (Arr3.elems access).

Definition jd_ratio (access : Arr3.t Z) : F64.float :=
  let stddev := F64.sqrt (jd_std access) in
  F64.div stddev (jd_mean access).

(** [count]: the distance of the current slot to the comparison slot,
    relative to the comparison slot. *)
Definition jd_count (cur prev : Z) : F64.float :=
  if cur >? prev then
    let diff := Int64.sub cur prev in
    F64.div (F64.of_int diff) (F64.of_int prev)
  else
    let diff := Int64.sub prev cur in
    F64.div (F64.of_int diff) (F64.of_int prev).

Definition judge_delay (access : Arr3.t Z) (index : Z) : option bool :=
  let mean := jd_mean access in
  cur ← Arr3.get access index;
  prev ← Arr3.get access (Int64.rem (Int64.add index 2) 3);
  let count := jd_count cur prev in
  let ratio := jd_ratio access in
  if F64.leb count F64.c_0_1 || F64.leb ratio F64.c_0_2
     || (F64.leb ratio F64.c_0_35 && F64.leb count F64.c_0_35)
  then
    if F64.ltb mean F64.c_100_0 then Some false else Some true
  else Some false.

(** ** Sample decoder *)

Module Decoder.

(** [fmt.Sprintf("0x%x", k)] for [k : int64]: lower-case hexadecimal
    digits, a minus sign in front of the digits of a negative value. *)
Definition sprintf_0x (k : Z) : string :=
  "0x" +:+ HexadecimalString.NilZero.string_of_int (Z.to_hex_int k).

(** [binary.Read(bytes.NewBuffer(data), binary.LittleEndian, &k)] for
    [k : int64]: eight bytes are needed; with fewer the call returns an
    error, which the caller drops, and [k] keeps its value. *)
Definition binary_read (data : list Init.Byte.byte) (k : Z) : Z :=
  if (length data =? 8)%nat then Int64.wrap (le_combine data) else k.

(** The local variables of [read_sample_logs]. *)
Record t : Type := mk {
  addr : string;
  access : Z;
  k : Z;
  index : Z;
  loc : Z;
  addrs_order : list string;
  addr_access : gmap string Z
}.

Definition init : t :=
  {| addr := "0x000000"; access := 0; k := 0; index := 0; loc := 0;
     addrs_order := []; addr_access := ∅ |}.

(** One iteration of the loop body after a successful [fp.Read] that
    returned the bytes [data]. *)
Definition body (data : list Init.Byte.byte) (st : t) : t :=
  let k' := binary_read data (k st) in
  let st1 :=
    if Int64.rem (index st) 3 =? 0 then
      let a := sprintf_0x k' in
      {| addr := a; access := access st; k := k'; index := index st;
         loc := Int64.add (index st) 2;
         addrs_order := addrs_order st ++ [a];
         addr_access := addr_access st |}
    else
      {| addr := addr st; access := access st; k := k'; index := index st;
         loc := loc st; addrs_order := addrs_order st;
         addr_access := addr_access st |} in
  let st2 :=
    if index st1 =? loc st1 then
      {| addr := addr st1; access := k'; k := k'; index := index st1;
         loc := loc st1; addrs_order := addrs_order st1;
         addr_access := <[addr st1 := k']> (addr_access st1) |}
    else st1 in
  {| addr := addr st2; access := access st2; k := k st2;
     index := Int64.add (index st2) 1; loc := loc st2;
     addrs_order := addrs_order st2; addr_access := addr_access st2 |}.

(** The read loop over the unread rest of the file.  [fp.Read] on a
    regular file fills the 8-byte buffer with the next [min 8 remaining]
    bytes, and reports [io.EOF] with no bytes at the end of the file. *)
Equations? read_loop (file : list Init.Byte.byte) (st : t) : t
  by wf (length file) lt :=
  read_loop [] st := st;
  read_loop (b :: rest) st :=
    read_loop (drop 8 (b :: rest)) (body (take 8 (b :: rest)) st).
Proof. rewrite length_drop. simpl. lia. Qed.

(** [read_sample_logs]; the argument is the content of [logPath], [None]
    when [os.Open] fails. *)
Definition read_sample_logs (log : option (list Init.Byte.byte))
  : list string * gmap string Z :=
  match log with
  | None => ([], ∅)
  | Some file =>
      let st := read_loop file init in
      (addrs_order st, addr_access st)
  end.

(** A record of the trace log and its 24-byte on-disk form. *)
Record sample : Type := mk_sample { s_addr : Z; s_pad : Z; s_count : Z }.

Definition encode_sample (r : sample) : list Init.Byte.byte :=
  le_split 8 (s_addr r) ++ le_split 8 (s_pad r) ++ le_split 8 (s_count r).

Definition encode_log (l : list sample) : list Init.Byte.byte :=
  flat_map encode_sample l.

(** The key and the value a record contributes to the mapping. *)
Definition key (r : sample) : string := sprintf_0x (Int64.wrap (s_addr r)).
Definition value (r : sample) : Z := Int64.wrap (s_count r).

(** The mapping after the records of [l], in file order, are bound on
    top of [m]: a later record overwrites an earlier one with its key. *)
Definition bind_all (m : gmap string Z) (l : list sample) : gmap string Z :=
  foldl (fun m r => <[key r := value r]> m) m l.

(** The locals after one more complete record is consumed. *)
Definition push (st : t) (r : sample) : t :=
  {| addr := key r; access := value r; k := value r;
     index := index st + 3; loc := index st + 2;
     addrs_order := addrs_order st ++ [key r];
     addr_access := <[key r := value r]> (addr_access st) |}.

(** The word [k] holds once the records of [l] are consumed. *)
Definition last_word (l : list sample) : Z := k (foldl push init l).

End Decoder.

(** ** Kernel profiler driver *)

Module Profiler.

(** What [os.Stat] reports: an error, a directory, or another file. *)
Inductive stat_result : Type := StatErr | StatDir | StatFile.

(** The answers of the host to one call of [get_target_addr]: the
    processes found by [get_pid], the outcomes of the [os.Stat] calls and
    of the two module commands, and the trace log as it stands when the
    decoder opens it. *)
Record env : Type := mk_env {
  targets : list string;
  stat_log : stat_result;
  stat_dbgfs : stat_result;
  insmod_ok : bool;
  stat_pids : stat_result;
  rmmod_ok : bool;
  log_file : option (list Init.Byte.byte)
}.

(** The effects on the host, in program order. *)
Inductive action : Type :=
| GetPid
| RenameLog
| Insmod
| EchoPid (pid : string)
| TracingOn
| SleepMs (ms : Z)
| TracingOff
| Rmmod
| ReadLog.

Definition chk_prerequisites (e : env) : bool * list action :=
  let tr_log :=
    match stat_log e with
    | StatFile => [RenameLog]
    | _ => []
    end in
  let '(loaded, tr_mod) :=
    match stat_dbgfs e with
    | StatDir => (true, [])
    | _ => (insmod_ok e, [Insmod])
    end in
  if negb loaded then (false, tr_log ++ tr_mod)
  else
    match stat_pids e with
    | StatFile => (true, tr_log ++ tr_mod)
    | _ => (false, tr_log ++ tr_mod)
    end.

Definition exit_handler (e : env) : bool * list action :=
  (rmmod_ok e, [Rmmod]).

(** How one iteration of a [for ... range] body ends. *)
Inductive ctl (R : Type) : Type :=
| Return (r : R)
| Break
| Next.
Arguments Return {R} _.
Arguments Break {R}.
Arguments Next {R}.

Definition sample_result : Type := (string * Z * bool)%type.

(** The body of [for _, pid := range targets] in [get_target_addr];
    [addr] and [access] are the locals initialised before the loop. *)
Definition range_body (e : env) (addr : string) (access : Z) (pid : string)
  : ctl sample_result * list action :=
  let '(stat, tr1) := chk_prerequisites e in
  if negb stat then (Return (addr, access, false), tr1)
  else
    let tr2 := [EchoPid pid; TracingOn; SleepMs 100; TracingOff] in
    let '(removed, tr3) := exit_handler e in
    if negb removed then (Break, tr1 ++ tr2 ++ tr3)
    else
      let '(addr_order, addrs_access) :=
        Decoder.read_sample_logs (log_file e) in
      match addr_order with
      | [] => (Return (addr, access, false), tr1 ++ tr2 ++ tr3 ++ [ReadLog])
      | first :: _ =>
          (Return (first, default 0 (addrs_access !! first), true),
           tr1 ++ tr2 ++ tr3 ++ [ReadLog])
      end.

Fixpoint range_targets (e : env) (addr : string) (access : Z)
    (pids : list string) : option sample_result * list action :=
  match pids with
  | [] => (None, [])
  | pid :: rest =>
      match range_body e addr access pid with
      | (Return r, tr) => (Some r, tr)
      | (Break, tr) => (None, tr)
      | (Next, tr) =>
          let '(r, tr') := range_targets e addr access rest in
          (r, tr ++ tr')
      end
  end.

Definition get_target_addr (e : env) : sample_result * list action :=
  let addr := "" in
  let access := -1 in
  match targets e with
  | [] => ((addr, access, false), [GetPid])
  | _ =>
      match range_targets e addr access (targets e) with
      | (Some r, tr) => (r, GetPid :: tr)
      | (None, tr) => ((addr, access, false), GetPid :: tr)
      end
  end.

End Profiler.

(** ** Control loop *)

Module Monitor.

(** The two shapes of message handed to [msgChan]. *)
Inductive directive : Type :=
| Start (addr_acc : string)
| Stop.

Definition stopSig : string := "0x00000 0".

Definition message (d : directive) : string :=
  match d with
  | Start addr_acc => addr_acc
  | Stop => stopSig
  end.

Inductive event : Type :=
| Sleep (ns : Z)
| Send (d : directive).

Definition millisecond : Z := 1000000.
Definition second : Z := 1000 * millisecond.

(** [time.Sleep(d * time.Millisecond)]. *)
Definition sleep_ms (d : Z) : event := Sleep (Int64.mul d millisecond).

(** [strconv.Itoa]. *)
Definition Itoa (n : Z) : string :=
  DecimalString.NilZero.string_of_int (Z.to_int n).

(** [strings.Contains]. *)
Fixpoint Contains (s substr : string) : bool :=
  String.prefix substr s
  || match s with
     | EmptyString => false
     | String _ s' => Contains s' substr
     end.

(** The variables of [monitor] that live across iterations;
    [delay_duration] never changes and is [duration]. *)
Record state : Type := mk_state {
  last_addr_acc : Arr3.t Z;
  last_delay : Arr3.t bool;
  index : Z;
  delay_interval : Z
}.

Definition init : state :=
  {| last_addr_acc := Arr3.mk 500 500 500;
     last_delay := Arr3.mk true true true;
     index := 0;
     delay_interval := interval |}.

(** The "make up" value [acc_cmp]. *)
Definition make_up (dstats : bool) (acc_num last_acc : Z) : Z :=
  if dstats && (acc_num <? last_acc) then
    Int64.add acc_num
      (F64.to_int (F64.mul (F64.of_int (Int64.sub last_acc acc_num))
                           F64.c_0_67))
  else acc_num.

(** The tail of an iteration from "notify: delay target address" on. *)
Definition mitigate (addr addr_acc : string) (acc : Arr3.t Z)
    (delays : Arr3.t bool) (inx index' : Z)
  : option (state * list event) :=
  let start := if Contains addr "0x" then [Send (Start addr_acc)] else [] in
  delays' ← Arr3.set delays inx true;
  Some ({| last_addr_acc := acc; last_delay := delays'; index := index';
           delay_interval := interval |},
        start ++ [sleep_ms duration; Send Stop; sleep_ms interval]).

(** One iteration of the [for] loop of [monitor], given what
    [get_target_addr] returned.  [None] is a run-time panic. *)
Definition cycle (st : state) (sample : Profiler.sample_result)
  : option (state * list event) :=
  let '(addr, acc_num, err) := sample in
  if negb err then Some (st, [sleep_ms (delay_interval st)])
  else
    let addr_acc := addr +:+ " " +:+ Itoa acc_num in
    let inx := Int64.rem (index st) 3 in
    '(delay_int, dstats) ←
      delayStates (last_delay st) (index st) (delay_interval st);
    let index' := Int64.add (index st) 1 in
    old_acc ← Arr3.get (last_addr_acc st) inx;
    last_acc ← Arr3.get (last_addr_acc st)
                        (Int64.rem (Int64.add inx 2) 3);
    let acc_cmp := make_up dstats acc_num last_acc in
    acc1 ← Arr3.set (last_addr_acc st) inx acc_cmp;
    if acc_num >? 3000 then
      acc2 ← Arr3.set acc1 inx old_acc;
      mitigate addr addr_acc acc2 (last_delay st) inx index'
    else
      strip ← (if acc_cmp <=? 80 then Some true
                else negb <$> judge_delay acc1 inx);
      if strip : bool then
        acc2 ← (if dstats then Arr3.set acc1 inx old_acc else Some acc1);
        delays' ← Arr3.set (last_delay st) inx false;
        Some ({| last_addr_acc := acc2; last_delay := delays';
                 index := index'; delay_interval := delay_int |},
              [sleep_ms delay_int])
      else
        mitigate addr addr_acc acc1 (last_delay st) inx index'.

(** The loop run on the successive results of [get_target_addr]. *)
Fixpoint cycles (st : state) (samples : list Profiler.sample_result)
  : option (state * list event) :=
  match samples with
  | [] => Some (st, [])
  | s :: rest =>
      '(st1, tr1) ← cycle st s;
      '(st2, tr2) ← cycles st1 rest;
      Some (st2, tr1 ++ tr2)
  end.

(** [monitor] up to the end of the iteration that consumes the last
    sample: the 40 s warm-up, then the loop. *)
Definition monitor (samples : list Profiler.sample_result)
  : option (state * list event) :=
  '(st, tr) ← cycles init samples;
  Some (st, Sleep (Int64.mul 40 second) :: tr).

(** The directives of a trace, in the order they reach the channel. *)
Definition directives (tr : list event) : list directive :=
  omap (fun e => match e with Send d => Some d | Sleep _ => None end) tr.

(** The directives and sleeps of an iteration that reaches "notify". *)
Definition mitigation_trace (addr addr_acc : string) : list event :=
  (if Contains addr "0x" then [Send (Start addr_acc)] else [])
  ++ [sleep_ms duration; Send Stop; sleep_ms interval].

(** Whether a directive is active once [ds] has been handed over, given
    whether one is [active] before; [None] when a [Start] arrives while an
    earlier [Start] is still without its [Stop]. *)
Fixpoint active_after (active : bool) (ds : list directive) : option bool :=
  match ds with
  | [] => Some active
  | Start _ :: rest => if active then None else active_after true rest
  | Stop :: rest => active_after false rest
  end.

(** The adjusted value [acc_cmp] of an iteration that starts in [st] and
    reads the raw count [acc_num]. *)
Definition adjusted (st : state) (acc_num : Z) : option Z :=
  '(_, dstats) ← delayStates (last_delay st) (index st) (delay_interval st);
  last_acc ← Arr3.get (last_addr_acc st)
                      (Int64.rem (Int64.add (Int64.rem (index st) 3) 2) 3);
  Some (make_up dstats acc_num last_acc).

End Monitor.

(** The disjunction tested by the outer [if] of [judge_delay]. *)
Definition jd_stable (count ratio : F64.float) : bool :=
  F64.leb count F64.c_0_1 || F64.leb ratio F64.c_0_2
  || (F64.leb ratio F64.c_0_35 && F64.leb count F64.c_0_35).

(** ** The decision engine as the specification words it *)

(** [isSuspicious] with [stddev] the standard deviation of the three values:
    the squared deviations are averaged over [norm] before the root is
    taken ([norm = 3] for the population form, [norm = 2] for the sample
    form).  Same arithmetic as the code otherwise. *)
Definition spec_stddev (norm : Z) (access : Arr3.t Z) : F64.float :=
  F64.sqrt (F64.div (jd_std access) (F64.of_int norm)).

Definition spec_isSuspicious (norm : Z) (access : Arr3.t Z) (s : Z)
  : option bool :=
  cur ← Arr3.get access s;
  prev ← Arr3.get access ((s + 2) mod 3);
  let mean := jd_mean access in
  let coefficientOfVariation := F64.div (spec_stddev norm access) mean in
  let relativeDelta :=
    F64.div (F64.of_int (Z.abs (cur - prev))) (F64.of_int prev) in
  let stable :=
    F64.leb relativeDelta F64.c_0_1
    || F64.leb coefficientOfVariation F64.c_0_2
    || (F64.leb coefficientOfVariation F64.c_0_35
        && F64.leb relativeDelta F64.c_0_35) in
  Some (stable && F64.leb F64.c_100_0 mean).

(** The intervals [delayStates] yields over cycles 0, 1, 2, ... when each
    cycle feeds its interval to the next; [ws i] is the window of flags at
    cycle [i], and the interval before cycle 0 is the baseline. *)
Fixpoint policy_intervals (ws : nat -> Arr3.t bool) (n : nat) : option Z :=
  match n with
  | O => fst <$> delayStates (ws O) 0 interval
  | S n' =>
      v ← policy_intervals ws n';
      fst <$> delayStates (ws n) (Z.of_nat n) v
  end.

(** ** Further notions for the control loop *)

(** Whether [get_target_addr] reported the sample as obtained. *)
Definition sample_ok (s : Profiler.sample_result) : bool := snd s.

(** What an observer of the channel and of the loop's variables can see of
    a run: the final variables and the directives, without the sleeps. *)
Definition observable (r : Monitor.state * list Monitor.event)
  : Monitor.state * list Monitor.directive :=
  (fst r, Monitor.directives (snd r)).

(** The interval, in milliseconds, slept by the [k]-th iteration of a run
    from the initial state in which no iteration mitigates. *)
Definition quiet_interval (k : nat) : Z :=
  match k with
  | 0%nat | 1%nat | 2%nat => 500
  | 3%nat => 5000
  | _ => 30000
  end.


(** The part [make_up] adds to the raw count for a difference [d]. *)
Definition compensation (d : Z) : Z :=
  F64.to_int (F64.mul (F64.of_int d) F64.c_0_67).

(** ** Further notions for the decoder and the profiler driver *)

(** An address string as [read_sample_logs] renders it from a 64-bit word. *)
Definition rendered (a : string) : Prop :=
  exists k, Int64.in_range k /\ a = Decoder.sprintf_0x k.

(** The host lets a call of [get_target_addr] run to the decoder: a process
    is found, the module is present or gets inserted, the pids file is a
    regular file and the module gets removed. *)
Definition healthy (e : Profiler.env) : Prop :=
  Profiler.targets e <> []
  /\ (Profiler.stat_dbgfs e = Profiler.StatDir
      \/ Profiler.insmod_ok e = true)
  /\ Profiler.stat_pids e = Profiler.StatFile
  /\ Profiler.rmmod_ok e = true.

(** What the read loop keeps true of its locals: the word [k] is a 64-bit
    integer, the ordered addresses are renderings of such words, every
    bound address is among them, and so is the current address once the
    first word has been read. *)
Definition decoder_inv (st : Decoder.t) : Prop :=
  Int64.in_range (Decoder.k st)
  /\ Forall rendered (Decoder.addrs_order st)
  /\ (forall a, is_Some (Decoder.addr_access st !! a) ->
        a ∈ Decoder.addrs_order st)
  /\ (Decoder.addr st ∈ Decoder.addrs_order st \/ Decoder.index st = 0).


(** ** Further notions for the decision engine *)

(** A number that is not NaN and carries the sign [s]. *)
Definition has_sign (s : bool) (f : F64.float) : Prop :=
  match f with
  | S754_zero s' | S754_infinity s' | S754_finite s' _ _ => s' = s
  | S754_nan => False
  end.

(** ** Process selector *)

Module Selector.

(** [strings.Split(s, sep)] for a separator of one byte: the pieces of
    [s] between the occurrences of [sep], at least one piece. *)
Fixpoint Split (s : string) (sep : ascii) : list string :=
  match s with
  | EmptyString => [EmptyString]
  | String c s' =>
      if Ascii.eqb c sep then EmptyString :: Split s' sep
      else
        match Split s' sep with
        | h :: t => String c h :: t
        | [] => [String c EmptyString]
        end
  end.

(** No byte of [s] is [sep]. *)
Fixpoint free_of (sep : ascii) (s : string) : bool :=
  match s with
  | EmptyString => true
  | String c s' => negb (Ascii.eqb c sep) && free_of sep s'
  end.

(** [strings.Join(elems, sep)]. *)
Fixpoint Join (elems : list string) (sep : string) : string :=
  match elems with
  | [] => EmptyString
  | [e] => e
  | e :: rest => e +:+ sep +:+ Join rest sep
  end.

(** The white space of [strings.Fields] on a string of ASCII bytes. *)
Definition asciiSpace (c : ascii) : bool :=
  existsb (Ascii.eqb c) ["009"; "010"; "011"; "012"; "013"; " "]%char.

(** [strings.Fields] on a string of ASCII bytes: the maximal runs of
    bytes that are not white space; [field] is the run being read. *)
Fixpoint Fields_from (s field : string) : list string :=
  match s with
  | EmptyString =>
      match field with EmptyString => [] | _ => [field] end
  | String c s' =>
      if asciiSpace c then
        match field with
        | EmptyString => Fields_from s' EmptyString
        | _ => field :: Fields_from s' EmptyString
        end
      else Fields_from s' (field +:+ String c EmptyString)
  end.

Definition FieldsASCII (s : string) : list string :=
  Fields_from s EmptyString.

(** The value of a string of decimal digits read after [acc]; [None] when a
    byte is not a digit. *)
Fixpoint digits_value (s : string) (acc : Z) : option Z :=
  match s with
  | EmptyString => Some acc
  | String c s' =>
      let d := Z.of_nat (nat_of_ascii c) - 48 in
      if (0 <=? d) && (d <=? 9) then digits_value s' (10 * acc + d)
      else None
  end.

(** [strconv.ParseFloat(s, 64)], with the error dropped as [get_pid] drops
    it, on the numerals [ps] prints: digits, a point, digits, of at most
    15 digits together, for which the nearest binary64 is the rounded
    quotient of two exact integers.  Any other string counts as a syntax
    error, for which Go returns 0. *)
Definition ParseFloatDecimal (s : string) : F64.float :=
  match Split s "."%char with
  | [whole; frac] =>
      match digits_value (whole +:+ frac) 0 with
      | Some n =>
          if (0 <? String.length whole)%nat
             && (0 <? String.length frac)%nat
             && (String.length whole + String.length frac <=? 15)%nat
          then F64.div (F64.of_int n)
                       (F64.of_int (10 ^ Z.of_nat (String.length frac)))
          else F64.zero
      | None => F64.zero
      end
  | _ => F64.zero
  end.

Section GetPid.

(** The two library functions [get_pid] calls on each row. *)
Variable Fields : string -> list string.
Variable ParseFloat : string -> F64.float.

(** [datas]: the fields of a row, joined by one blank and split again. *)
Definition datas_of (item : string) : list string :=
  Split (Join (Fields item) " ") " "%char.

(** The locals [max_cpu] and [target_pid]. *)
Record selection : Type := mk_selection {
  max_cpu : F64.float;
  target_pid : string
}.

Definition no_selection : selection :=
  {| max_cpu := F64.zero; target_pid := "-1" |}.

(** The body of [for _, item := range items]; [None] is the panic of an
    index out of range. *)
Definition row (st : selection) (item : string) : option selection :=
  let datas := datas_of item in
  if (length datas =? 1)%nat then Some st
  else
    pid ← datas !! 1%nat;
    cpu ← datas !! 2%nat;
    mem ← datas !! 3%nat;
    time ← datas !! 9%nat;
    if negb (String.eqb mem "0.0") || negb (String.eqb cpu "0.0")
       || negb (String.eqb time "0:00")
    then
      let cpu_data := ParseFloat cpu in
      if F64.ltb (max_cpu st) cpu_data
      then Some {| max_cpu := cpu_data; target_pid := pid |}
      else Some st
    else Some st.

Fixpoint rows (st : selection) (items : list string) : option selection :=
  match items with
  | [] => Some st
  | item :: rest => st' ← row st item; rows st' rest
  end.

(** [get_pid]; the argument is the output of the [ps] pipeline, [None]
    when [cmd.Output] returns an error. *)
Definition get_pid (output : option string) : option (list string) :=
  match output with
  | None => Some []
  | Some out =>
      st ← rows no_selection (Split out "010"%char);
      Some (if String.eqb (target_pid st) "-1" then []
            else [target_pid st])
  end.

(** A row the loop looks at: it has the ten fields and is not idle. *)
Definition considered (item : string) : bool :=
  let datas := datas_of item in
  negb (length datas =? 1)%nat
  && (negb (String.eqb (default EmptyString (datas !! 3%nat)) "0.0")
      || negb (String.eqb (default EmptyString (datas !! 2%nat)) "0.0")
      || negb (String.eqb (default EmptyString (datas !! 9%nat)) "0:00")).

(** The CPU share [get_pid] parses from a row. *)
Definition cpu_of (item : string) : F64.float :=
  ParseFloat (default EmptyString (datas_of item !! 2%nat)).

(** [st] holds the best of the rows [seen]: no considered row has a
    larger share than [max_cpu], and [target_pid] is either untouched
    or the second field of a considered row whose positive share is
    [max_cpu]. *)
Definition best_of (seen : list string) (st : selection) : Prop :=
  (forall item, item ∈ seen -> considered item = true ->
     F64.ltb (max_cpu st) (cpu_of item) = false)
  /\ (st = no_selection
      \/ exists item, item ∈ seen /\ considered item = true
          /\ datas_of item !! 1%nat = Some (target_pid st)
          /\ max_cpu st = cpu_of item
          /\ F64.ltb F64.zero (cpu_of item) = true).

End GetPid.

End Selector.

(** ** Proof automation *)

(** Membership in a list written out in full. *)
Ltac in_list :=
  repeat first [apply list_elem_of_here | apply list_elem_of_further].


(** * Properties *)

(** ** Machine integers and arrays *)

Lemma wrap_in_range z : Int64.in_range z -> Int64.wrap z = z.
Proof.
  unfold Int64.in_range, Int64.wrap, Int64.min_int, Int64.max_int,
    Int64.modulus.
  intros H. rewrite Z.mod_small; lia.
Qed.

Lemma wrap_range z : Int64.in_range (Int64.wrap z).
Proof.
  unfold Int64.in_range, Int64.wrap, Int64.min_int, Int64.max_int,
    Int64.modulus.
  pose proof (Z.mod_pos_bound (z + 2 ^ 63) (2 ^ 64)). lia.
Qed.

Lemma wrap_mod z : Int64.wrap (z mod 2 ^ 64) = Int64.wrap z.
Proof.
  unfold Int64.wrap, Int64.modulus. by rewrite Zplus_mod_idemp_l.
Qed.

Lemma rem3_cases i :
  0 <= i -> Int64.rem i 3 = 0 \/ Int64.rem i 3 = 1 \/ Int64.rem i 3 = 2.
Proof.
  intros Hi. unfold Int64.rem.
  pose proof (Z.rem_bound_pos i 3 Hi). lia.
Qed.

Lemma rem3_mod i : 0 <= i -> Int64.rem i 3 = i mod 3.
Proof. intros Hi. unfold Int64.rem. apply Z.rem_mod_nonneg; lia. Qed.

Lemma get_in_range {A} (a : Arr3.t A) i :
  0 <= i < 3 -> is_Some (Arr3.get a i).
Proof.
  intros Hi. assert (i = 0 \/ i = 1 \/ i = 2) as [->|[->| ->]] by lia;
    by eexists.
Qed.

Lemma set_in_range {A} (a : Arr3.t A) i v :
  0 <= i < 3 -> is_Some (Arr3.set a i v).
Proof.
  intros Hi. assert (i = 0 \/ i = 1 \/ i = 2) as [->|[->| ->]] by lia;
    by eexists.
Qed.

Lemma set_set_get {A} (a a1 a2 : Arr3.t A) i v old :
  Arr3.get a i = Some old ->
  Arr3.set a i v = Some a1 ->
  Arr3.set a1 i old = Some a2 ->
  a2 = a.
Proof.
  unfold Arr3.get, Arr3.set. destruct a as [x y z]; simpl.
  destruct (i =? 0); [|destruct (i =? 1); [|destruct (i =? 2)]];
    intros Hold H1 H2; try discriminate;
    injection Hold as <-; injection H1 as <-; injection H2 as <-;
    reflexivity.
Qed.

Lemma slot_next i : 0 <= i < 3 ->
  Int64.rem (Int64.add i 2) 3 = (i + 2) mod 3.
Proof.
  intros Hi. assert (i = 0 \/ i = 1 \/ i = 2) as [->|[->| ->]] by lia;
    reflexivity.
Qed.

(** ** Interval policy *)

Lemma delayStates_loop_3 w i status slot :
  Arr3.get w (Int64.rem i 3) = Some slot ->
  delayStates_loop 3 w i status =
    Some (if slot then Some (interval, status) else None).
Proof.
  intros H. simpl. rewrite H. simpl. destruct slot; reflexivity.
Qed.

Lemma delayStates_pos w i v slot prior :
  0 < i <= Int64.max_int ->
  Arr3.get w (i mod 3) = Some slot ->
  Arr3.get w ((i - 1) mod 3) = Some prior ->
  delayStates w i v =
    Some (if slot then interval else Z.min (Int64.mul v 10) 30000, prior).
Proof.
  intros Hi Hslot Hprior. unfold delayStates.
  destruct (Z.eqb_spec i 0) as [|_]; [lia|].
  assert (Int64.sub i 1 = i - 1) as ->.
  { apply wrap_in_range. unfold Int64.in_range, Int64.min_int,
      Int64.max_int in *. lia. }
  rewrite (rem3_mod (i - 1)) by lia. rewrite Hprior.
  cbn -[delayStates_loop].
  rewrite (delayStates_loop_3 w i prior slot)
    by (rewrite rem3_mod by lia; exact Hslot).
  simpl. destruct slot; [reflexivity|].
  do 2 f_equal. destruct (Z.gtb_spec (Int64.mul v 10) 30000); lia.
Qed.

Lemma delayStates_ceiling w i v r status :
  delayStates w i v = Some (r, status) -> r <= 30000.
Proof.
  unfold delayStates. destruct (i =? 0).
  - intros [= <- _]. unfold interval. lia.
  - destruct (Arr3.get w _) as [st|]; simpl; [|discriminate].
    destruct (Arr3.get w _) as [[]|]; simpl; try discriminate.
    + intros [= <- _]. unfold interval. lia.
    + destruct (Z.gtb_spec (Int64.mul v 10) 30000); intros [= <- _]; lia.
Qed.

Lemma policy_intervals_quiet ws :
  (forall i : nat, (0 < i)%nat ->
     Arr3.get (ws i) (Z.of_nat i mod 3) = Some false) ->
  forall n : nat, Z.of_nat n <= Int64.max_int ->
    policy_intervals ws n =
      Some (match n with O => 500 | S O => 5000 | _ => 30000 end).
Proof.
  intros Hq n. induction n as [|n IH]; intros Hn; [reflexivity|].
  assert (exists prior,
    Arr3.get (ws (S n)) ((Z.of_nat (S n) - 1) mod 3) = Some prior)
    as [prior Hprior].
  { apply get_in_range, Z.mod_pos_bound. lia. }
  cbn [policy_intervals]. rewrite IH by lia. simpl mbind.
  erewrite delayStates_pos; [|lia|apply Hq; lia|exact Hprior].
  simpl. destruct n as [|[|n]]; reflexivity.
Qed.

(** C2. [delayStates] answers (500, true) at cycle 0; at a later cycle [i] it
    answers 500 when slot [i mod 3] carries the mitigated flag and otherwise
    the smaller of ten times the current interval and 30000, each time with
    the flag of slot [(i-1) mod 3]; the product is the 64-bit one, equal to
    the mathematical product whenever that fits.  The interval never
    exceeds 30000, and over cycles whose revisited slot is never flagged
    the intervals are 500, 5000, 30000, 30000, ... *)
Theorem delayStates_policy (w : Arr3.t bool) (i v : Z) :
  0 <= i <= Int64.max_int ->
  delayStates w 0 v = Some (500, true)
  /\ (0 < i ->
      exists slot prior,
        Arr3.get w (i mod 3) = Some slot
        /\ Arr3.get w ((i - 1) mod 3) = Some prior
        /\ delayStates w i v =
             Some (if slot then 500 else Z.min (Int64.mul v 10) 30000, prior))
  /\ (Int64.in_range (v * 10) -> Int64.mul v 10 = v * 10)
  /\ (forall r status, delayStates w i v = Some (r, status) -> r <= 30000)
  /\ (forall ws : nat -> Arr3.t bool,
        (forall j : nat, (0 < j)%nat ->
           Arr3.get (ws j) (Z.of_nat j mod 3) = Some false) ->
        forall n : nat, Z.of_nat n <= Int64.max_int ->
          policy_intervals ws n =
            Some (match n with O => 500 | S O => 5000 | _ => 30000 end)).
Proof.
  intros Hi. split; [reflexivity|]. split; [|split; [|split]].
  - intros Hpos.
    destruct (get_in_range w (i mod 3)) as [slot Hslot];
      [apply Z.mod_pos_bound; lia|].
    destruct (get_in_range w ((i - 1) mod 3)) as [prior Hprior];
      [apply Z.mod_pos_bound; lia|].
    exists slot, prior. repeat split; try assumption.
    apply delayStates_pos; [lia|assumption..].
  - apply wrap_in_range.
  - intros r status. apply delayStates_ceiling.
  - apply policy_intervals_quiet.
Qed.

Lemma delayStates_policy_witness :
  exists slot prior,
    Arr3.get (Arr3.mk false true false) (4 mod 3) = Some slot
    /\ Arr3.get (Arr3.mk false true false) ((4 - 1) mod 3) = Some prior
    /\ delayStates (Arr3.mk false true false) 4 500 =
         Some (if slot then 500 else Z.min (Int64.mul 500 10) 30000, prior).
Proof.
  refine (proj1 (proj2
    (delayStates_policy (Arr3.mk false true false) 4 500 _)) _).
  - unfold Int64.max_int. lia.
  - lia.
Defined.

(** ** Conversion of integers to binary64 *)

Lemma shr_1_m r : 0 <= shr_m r -> shr_m (shr_1 r) = shr_m r / 2.
Proof.
  destruct r as [m rb sb]. simpl. intros Hm. rewrite <- Z.div2_div.
  destruct m as [|[p|p|]|p]; try reflexivity. lia.
Qed.

Lemma iter_shr_1_m k : forall r,
  0 <= shr_m r -> shr_m (SpecFloat.iter_pos shr_1 k r) = shr_m r / 2 ^ Z.pos k.
Proof.
  assert (Hnn : forall r, 0 <= shr_m r -> 0 <= shr_m r / 2)
    by (intros; apply Z.div_pos; lia).
  induction k as [k IH|k IH|]; intros r Hr; simpl SpecFloat.iter_pos.
  - assert (H1 : 0 <= shr_m (shr_1 r)) by (rewrite shr_1_m; auto).
    assert (H2 : 0 <= shr_m (SpecFloat.iter_pos shr_1 k (shr_1 r))).
    { rewrite IH by assumption. apply Z.div_pos; lia. }
    rewrite IH, IH, shr_1_m by assumption.
    rewrite !Z.div_div by lia. f_equal.
    rewrite Pos2Z.inj_xI, Z.pow_add_r, Z.pow_1_r, Z.pow_mul_r by lia.
    change (2 ^ 2) with 4.
    replace (4 ^ Z.pos k) with (2 ^ Z.pos k * 2 ^ Z.pos k); [lia|].
    rewrite <- Z.pow_add_r by lia.
    replace (Z.pos k + Z.pos k) with (2 * Z.pos k) by lia.
    rewrite Z.pow_mul_r by lia. reflexivity.
  - assert (H2 : 0 <= shr_m (SpecFloat.iter_pos shr_1 k r)).
    { rewrite IH by assumption. apply Z.div_pos; lia. }
    rewrite IH, IH by assumption.
    rewrite !Z.div_div by lia. f_equal.
    rewrite Pos2Z.inj_xO. rewrite <- Z.pow_add_r by lia. f_equal. lia.
  - rewrite shr_1_m by assumption. reflexivity.
Qed.

Lemma digits2_pos_size p : digits2_pos p = Pos.size p.
Proof. induction p; simpl; congruence. Qed.

Lemma digits2_lower p : 2 ^ (Z.pos (digits2_pos p) - 1) <= Z.pos p.
Proof.
  rewrite digits2_pos_size.
  pose proof (Pos.size_le p) as H.
  apply Pos2Z.pos_le_pos in H. rewrite Pos2Z.inj_pow in H.
  rewrite (Pos2Z.inj_xO p) in H.
  replace (Z.pos (Pos.size p)) with (1 + (Z.pos (Pos.size p) - 1)) in H by lia.
  rewrite Z.pow_add_r in H by lia. change (2 ^ 1) with 2 in H. lia.
Qed.

(** Shifting out fewer bits than the mantissa has leaves a positive
    mantissa. *)
Lemma shr_fexp_pos m e l :
  SpecFloat.emin F64.prec F64.emax <= e ->
  exists q, shr_m (fst (shr_fexp F64.prec F64.emax (Z.pos m) e l)) = Z.pos q.
Proof.
  intros He. unfold shr_fexp, shr.
  set (n := fexp F64.prec F64.emax (Zdigits2 (Z.pos m) + e) - e).
  assert (Hn : n < Z.pos (digits2_pos m)).
  { subst n. unfold fexp, SpecFloat.emin, F64.prec, F64.emax in *.
    simpl Zdigits2. lia. }
  assert (Hm : shr_m (shr_record_of_loc (Z.pos m) l) = Z.pos m)
    by (destruct l as [|[]]; reflexivity).
  destruct n as [|k|k]; simpl fst; try (exists m; exact Hm).
  rewrite iter_shr_1_m by (rewrite Hm; lia). rewrite Hm.
  assert (0 < Z.pos m / 2 ^ Z.pos k).
  { apply Z.div_str_pos. split; [lia|].
    pose proof (digits2_lower m).
    assert (2 ^ Z.pos k <= 2 ^ (Z.pos (digits2_pos m) - 1))
      by (apply Z.pow_le_mono_r; lia). lia. }
  destruct (Z.pos m / 2 ^ Z.pos k) as [|q|q]; try lia. by exists q.
Qed.

Lemma shr_fexp_exp m e l :
  e <= snd (shr_fexp F64.prec F64.emax m e l).
Proof.
  unfold shr_fexp, shr. destruct (fexp _ _ _ - e); simpl; lia.
Qed.

Lemma round_nearest_even_pos q l :
  exists q', round_nearest_even (Z.pos q) l = Z.pos q'.
Proof.
  destruct l as [|[]]; unfold round_nearest_even;
    try destruct (Z.even (Z.pos q)); eexists; reflexivity.
Qed.

Lemma binary_round_aux_sign sx m e l :
  SpecFloat.emin F64.prec F64.emax <= e ->
  (exists m' e',
     binary_round_aux F64.prec F64.emax sx (Z.pos m) e l
       = S754_finite sx m' e')
  \/ binary_round_aux F64.prec F64.emax sx (Z.pos m) e l = S754_infinity sx.
Proof.
  intros He. unfold binary_round_aux.
  destruct (shr_fexp_pos m e l He) as [q Hq].
  pose proof (shr_fexp_exp (Z.pos m) e l) as He'.
  destruct (shr_fexp F64.prec F64.emax (Z.pos m) e l) as [mrs' e'].
  simpl in Hq, He'. rewrite Hq.
  destruct (round_nearest_even_pos q (loc_of_shr_record mrs')) as [q' ->].
  destruct (shr_fexp_pos q' e' loc_Exact ltac:(lia)) as [q2 Hq2].
  destruct (shr_fexp F64.prec F64.emax (Z.pos q') e' loc_Exact) as [mrs2 e2].
  simpl in Hq2. rewrite Hq2.
  destruct (e2 <=? F64.emax - F64.prec); [left; eauto|right; reflexivity].
Qed.

(** A positive integer converts to a positive finite number or to plus
    infinity, never to a zero or to NaN. *)
Lemma of_int_pos p :
  (exists m e, F64.of_int (Z.pos p) = S754_finite false m e)
  \/ F64.of_int (Z.pos p) = S754_infinity false.
Proof.
  unfold F64.of_int, binary_normalize, binary_round.
  destruct (shl_align p 0 _) as [mz ez] eqn:Hal.
  apply binary_round_aux_sign.
  unfold shl_align in Hal.
  destruct (fexp F64.prec F64.emax (Z.pos (digits2_pos p) + 0) - 0) eqn:Hd;
    injection Hal as <- <-;
    unfold SpecFloat.emin, fexp, F64.prec, F64.emax in *; lia.
Qed.

Lemma of_int_0 : F64.of_int 0 = S754_zero false.
Proof. reflexivity. Qed.

Lemma div_pos_by_zero p :
  F64.div (F64.of_int (Z.pos p)) (F64.of_int 0) = S754_infinity false.
Proof.
  rewrite of_int_0.
  destruct (of_int_pos p) as [(m & e & ->)| ->]; reflexivity.
Qed.

(** ** Stability classifier *)

Lemma judge_delay_char w s cur prev :
  Arr3.get w s = Some cur ->
  Arr3.get w (Int64.rem (Int64.add s 2) 3) = Some prev ->
  judge_delay w s =
    Some (jd_stable (jd_count cur prev) (jd_ratio w)
          && negb (F64.ltb (jd_mean w) F64.c_100_0)).
Proof.
  intros Hcur Hprev. unfold judge_delay, jd_stable.
  rewrite Hcur, Hprev. cbn [mbind option_bind].
  destruct (_ || _ || _); [|reflexivity].
  destruct (F64.ltb _ _); reflexivity.
Qed.

Lemma judge_delay_total w s : 0 <= s < 3 -> exists b, judge_delay w s = Some b.
Proof.
  intros Hs.
  destruct (get_in_range w s Hs) as [cur Hcur].
  destruct (get_in_range w ((s + 2) mod 3)) as [prev Hprev];
    [apply Z.mod_pos_bound; lia|].
  rewrite <- slot_next in Hprev by assumption.
  eexists. by apply judge_delay_char.
Qed.

Lemma jd_count_zero_prev cur :
  Int64.in_range cur -> cur <> Int64.min_int ->
  jd_count cur 0 = if cur =? 0 then S754_nan else S754_infinity false.
Proof.
  unfold Int64.in_range, Int64.min_int, Int64.max_int. intros Hr Hmin.
  unfold jd_count. destruct (Z.gtb_spec cur 0) as [Hgt|Hle].
  - assert (Int64.sub cur 0 = cur) as ->.
    { unfold Int64.sub. rewrite Z.sub_0_r. apply wrap_in_range.
      unfold Int64.in_range, Int64.min_int, Int64.max_int. lia. }
    destruct cur as [|p|p]; try lia. apply div_pos_by_zero.
  - assert (Int64.sub 0 cur = - cur) as ->.
    { unfold Int64.sub. rewrite Z.sub_0_l. apply wrap_in_range.
      unfold Int64.in_range, Int64.min_int, Int64.max_int. lia. }
    destruct cur as [|p|p]; try lia; [reflexivity|].
    apply div_pos_by_zero.
Qed.

(** C1, evaluated: on the window [100, 139, 100] at slot 1 the relative delta
    is 0.39 and the standard deviation of the three values over their mean
    is 0.16 (population form) or 0.20 (sample form, just below the
    threshold), so the window is stable with mean 113 and the classifier
    as specified answers true in either form.  [judge_delay] divides the
    root of the sum of the squared deviations, not their standard
    deviation, by the mean: its ratio is 0.28 and it answers false. *)
Theorem judge_delay_root_of_squares :
  judge_delay (Arr3.mk 100 139 100) 1 = Some false
  /\ spec_isSuspicious 3 (Arr3.mk 100 139 100) 1 = Some true
  /\ spec_isSuspicious 2 (Arr3.mk 100 139 100) 1 = Some true
  /\ F64.leb (jd_ratio (Arr3.mk 100 139 100)) F64.c_0_2 = false
  /\ F64.leb (F64.div (spec_stddev 3 (Arr3.mk 100 139 100))
                      (jd_mean (Arr3.mk 100 139 100))) F64.c_0_2 = true.
Proof. vm_compute. repeat split. Qed.

(** C10, as stated, fails on the window [-2^63, -1, 0] at slot 0: the
    comparison slot is zero, the difference [0 - (-2^63)] wraps to [-2^63],
    the quotient is minus infinity, the first relative-delta test succeeds
    and [judge_delay] answers true although the ratio test fails. *)
Lemma judge_delay_min_int_quotient :
  Arr3.get (Arr3.mk Int64.min_int (-1) 0) ((0 + 2) mod 3) = Some 0
  /\ jd_count Int64.min_int 0 = S754_infinity true
  /\ F64.leb (jd_count Int64.min_int 0) F64.c_0_1 = true
  /\ F64.leb (jd_ratio (Arr3.mk Int64.min_int (-1) 0)) F64.c_0_2 = false
  /\ judge_delay (Arr3.mk Int64.min_int (-1) 0) 0 = Some true.
Proof. vm_compute. repeat split. Qed.

(** C10, amended: [judge_delay] returns, without panic, for every window
    and every slot index 0..2; when the comparison slot is zero and the
    current slot is not the minimal 64-bit integer, the quotient is plus
    infinity, or NaN when the current slot is zero too, both relative-delta
    tests fail, and the answer is true exactly when the ratio is at most
    0.2 and the mean is not below 100. *)
Theorem judge_delay_zero_comparison (w : Arr3.t Z) (s : Z) :
  0 <= s < 3 ->
  (exists b, judge_delay w s = Some b)
  /\ forall cur,
       Arr3.get w s = Some cur ->
       Arr3.get w ((s + 2) mod 3) = Some 0 ->
       Int64.in_range cur -> cur <> Int64.min_int ->
       jd_count cur 0 = (if cur =? 0 then S754_nan else S754_infinity false)
       /\ F64.leb (jd_count cur 0) F64.c_0_1 = false
       /\ F64.leb (jd_count cur 0) F64.c_0_35 = false
       /\ judge_delay w s =
            Some (F64.leb (jd_ratio w) F64.c_0_2
                  && negb (F64.ltb (jd_mean w) F64.c_100_0)).
Proof.
  intros Hs. split; [by apply judge_delay_total|].
  intros cur Hcur Hprev Hr Hmin.
  pose proof (jd_count_zero_prev cur Hr Hmin) as Hc.
  assert (Hc1 : F64.leb (jd_count cur 0) F64.c_0_1 = false)
    by (rewrite Hc; destruct (cur =? 0); reflexivity).
  assert (Hc2 : F64.leb (jd_count cur 0) F64.c_0_35 = false)
    by (rewrite Hc; destruct (cur =? 0); reflexivity).
  repeat split; try assumption.
  rewrite <- slot_next in Hprev by assumption.
  rewrite (judge_delay_char w s cur 0 Hcur Hprev).
  unfold jd_stable. rewrite Hc1, Hc2.
  by rewrite andb_false_r, orb_false_r.
Qed.

Lemma judge_delay_zero_comparison_witness :
  jd_count 700 0 = S754_infinity false
  /\ F64.leb (jd_count 700 0) F64.c_0_1 = false
  /\ F64.leb (jd_count 700 0) F64.c_0_35 = false
  /\ judge_delay (Arr3.mk 0 700 650) 1 =
       Some (F64.leb (jd_ratio (Arr3.mk 0 700 650)) F64.c_0_2
             && negb (F64.ltb (jd_mean (Arr3.mk 0 700 650)) F64.c_100_0)).
Proof.
  refine (proj2 (judge_delay_zero_comparison (Arr3.mk 0 700 650) 1 _)
            700 _ _ _ _).
  - lia.
  - reflexivity.
  - reflexivity.
  - unfold Int64.in_range, Int64.min_int, Int64.max_int. lia.
  - unfold Int64.min_int. lia.
Defined.

(** ** Sample decoder *)

Import Decoder.

Lemma read_loop_word data rest st :
  length data = 8%nat ->
  read_loop (data ++ rest) st = read_loop rest (body data st).
Proof.
  intros Hlen. destruct data as [|b data]; [discriminate|].
  rewrite <- app_comm_cons. simp read_loop.
  rewrite app_comm_cons.
  by rewrite take_app_length', drop_app_length'.
Qed.

Lemma binary_read_word z k0 :
  binary_read (le_split 8 z) k0 = Int64.wrap z.
Proof.
  unfold binary_read. rewrite length_le_split. simpl.
  rewrite le_combine_split. apply wrap_mod.
Qed.

Lemma binary_read_short data k0 :
  length data <> 8%nat -> binary_read data k0 = k0.
Proof.
  intros H. unfold binary_read.
  destruct (Nat.eqb_spec (length data) 8); [contradiction|reflexivity].
Qed.

Lemma rem3_shift i d :
  0 <= i -> Int64.rem i 3 = 0 -> 0 <= d < 3 -> Int64.rem (i + d) 3 = d.
Proof.
  intros Hi H0 Hd. rewrite rem3_mod in * by lia.
  pose proof (Z.div_mod i 3 ltac:(lia)) as Hdm. rewrite H0 in Hdm.
  replace (i + d) with (d + (i / 3) * 3) by lia.
  rewrite Z.mod_add by lia. apply Z.mod_small. lia.
Qed.

Lemma add_small i d :
  0 <= i -> 0 <= d -> i + d <= Int64.max_int -> Int64.add i d = i + d.
Proof.
  intros. apply wrap_in_range.
  unfold Int64.in_range, Int64.min_int, Int64.max_int in *. lia.
Qed.

Lemma body_addr data st :
  Int64.rem (index st) 3 = 0 -> index st <> Int64.add (index st) 2 ->
  body data st =
    {| addr := sprintf_0x (binary_read data (k st)); access := access st;
       k := binary_read data (k st); index := Int64.add (index st) 1;
       loc := Int64.add (index st) 2;
       addrs_order := addrs_order st ++ [sprintf_0x (binary_read data (k st))];
       addr_access := addr_access st |}.
Proof.
  intros H0 Hne. unfold body. rewrite H0.
  cbn [index loc addr access k addrs_order addr_access Z.eqb].
  destruct (Z.eqb_spec (index st) (Int64.add (index st) 2)); [contradiction|].
  reflexivity.
Qed.

Lemma body_skip data st :
  Int64.rem (index st) 3 <> 0 -> index st <> loc st ->
  body data st =
    {| addr := addr st; access := access st;
       k := binary_read data (k st); index := Int64.add (index st) 1;
       loc := loc st; addrs_order := addrs_order st;
       addr_access := addr_access st |}.
Proof.
  intros H0 Hne. unfold body.
  destruct (Z.eqb_spec (Int64.rem (index st) 3) 0); [contradiction|].
  cbn [index loc addr access k addrs_order addr_access].
  destruct (Z.eqb_spec (index st) (loc st)); [contradiction|].
  reflexivity.
Qed.

Lemma body_count data st :
  Int64.rem (index st) 3 <> 0 -> index st = loc st ->
  body data st =
    {| addr := addr st; access := binary_read data (k st);
       k := binary_read data (k st); index := Int64.add (index st) 1;
       loc := loc st; addrs_order := addrs_order st;
       addr_access :=
         <[addr st := binary_read data (k st)]> (addr_access st) |}.
Proof.
  intros H0 He. unfold body.
  destruct (Z.eqb_spec (Int64.rem (index st) 3) 0); [contradiction|].
  cbn [index loc addr access k addrs_order addr_access].
  destruct (Z.eqb_spec (index st) (loc st)); [|contradiction].
  reflexivity.
Qed.

Lemma body_record st r :
  0 <= index st -> Int64.rem (index st) 3 = 0 ->
  index st + 3 <= Int64.max_int ->
  body (le_split 8 (s_count r))
    (body (le_split 8 (s_pad r)) (body (le_split 8 (s_addr r)) st))
  = push st r.
Proof.
  intros Hi H0 Hmax.
  assert (A1 : Int64.add (index st) 1 = index st + 1) by (apply add_small; lia).
  assert (A2 : Int64.add (index st) 2 = index st + 2) by (apply add_small; lia).
  assert (A3 : Int64.add (index st + 1) 1 = index st + 2)
    by (rewrite add_small; lia).
  assert (A4 : Int64.add (index st + 2) 1 = index st + 3)
    by (rewrite add_small; lia).
  rewrite (body_addr _ st) by (rewrite ?A2; lia). rewrite A1, A2.
  rewrite (body_skip (le_split 8 (s_pad r)));
    [|cbn [index loc]; rewrite ?rem3_shift by lia; lia..].
  cbn [index loc addr access k addrs_order addr_access]. rewrite A3.
  rewrite body_count;
    [|cbn [index loc]; rewrite ?rem3_shift by lia; lia..].
  cbn [index loc addr access k addrs_order addr_access]. rewrite A4.
  rewrite !binary_read_word. reflexivity.
Qed.

Lemma read_loop_record r rest st :
  0 <= index st -> Int64.rem (index st) 3 = 0 ->
  index st + 3 <= Int64.max_int ->
  read_loop (encode_sample r ++ rest) st = read_loop rest (push st r).
Proof.
  intros Hi H0 Hmax. unfold encode_sample.
  rewrite <- !app_assoc.
  rewrite !read_loop_word by apply length_le_split.
  by rewrite body_record.
Qed.

Lemma read_loop_records l : forall rest st,
  0 <= index st -> Int64.rem (index st) 3 = 0 ->
  index st + 3 * Z.of_nat (length l) <= Int64.max_int ->
  read_loop (encode_log l ++ rest) st = read_loop rest (foldl push st l).
Proof.
  induction l as [|r l IH]; intros rest st Hi H0 Hmax; [reflexivity|].
  change (encode_log (r :: l)) with (encode_sample r ++ encode_log l).
  rewrite <- app_assoc.
  rewrite read_loop_record by (simpl length in Hmax; lia).
  simpl length in Hmax. rewrite IH; [reflexivity|simpl; lia| |simpl; lia].
  simpl. replace (index st + 3) with (index st + 1 * 3) by lia.
  rewrite rem3_mod in * by lia. rewrite Z.mod_add by lia. assumption.
Qed.

Lemma foldl_push_order l : forall st,
  addrs_order (foldl push st l) = addrs_order st ++ map key l.
Proof.
  induction l as [|r l IH]; intros st; simpl.
  - by rewrite app_nil_r.
  - rewrite IH. simpl. by rewrite <- app_assoc.
Qed.

Lemma foldl_push_map l : forall st,
  addr_access (foldl push st l) = bind_all (addr_access st) l.
Proof.
  induction l as [|r l IH]; intros st; simpl; [reflexivity|].
  by rewrite IH.
Qed.

Lemma foldl_push_index l : forall st,
  index (foldl push st l) = index st + 3 * Z.of_nat (length l).
Proof.
  induction l as [|r l IH]; intros st; simpl length; simpl foldl.
  - lia.
  - rewrite IH. simpl. lia.
Qed.

Lemma bind_all_last m l1 r l2 :
  key r ∉ map key l2 ->
  bind_all m (l1 ++ r :: l2) !! key r = Some (value r).
Proof.
  intros Hnot. unfold bind_all. rewrite foldl_app. simpl.
  generalize dependent (foldl (fun m r => <[key r:=value r]> m) m l1).
  induction l2 as [|r' l2 IH]; intros m0; simpl.
  - apply lookup_insert_eq.
  - simpl in Hnot. apply not_elem_of_cons in Hnot as [Hne Hnot].
    destruct (decide (key r' = key r)) as [Heq|Hneq]; [congruence|].
    rewrite insert_insert_ne by congruence. by apply IH.
Qed.

Lemma to_hex_uint_not_nil p : Pos.to_hex_uint p <> Hexadecimal.Nil.
Proof.
  intros H. pose proof (HexadecimalPos.Unsigned.of_to p) as Hp.
  rewrite H in Hp. discriminate.
Qed.

Lemma sprintf_0x_inj k1 k2 : sprintf_0x k1 = sprintf_0x k2 -> k1 = k2.
Proof.
  unfold sprintf_0x. intros H. apply String.app_inv_r in H.
  assert (Hnn : forall z, Z.to_hex_int z <> Hexadecimal.Pos Hexadecimal.Nil
                       /\ Z.to_hex_int z <> Hexadecimal.Neg Hexadecimal.Nil).
  { intros [|p|p]; simpl; split; try discriminate;
      intros [= Hp]; by apply to_hex_uint_not_nil in Hp. }
  apply (f_equal HexadecimalString.NilZero.int_of_string) in H.
  rewrite !HexadecimalString.NilZero.isi in H by apply Hnn.
  injection H as H. apply (f_equal Z.of_hex_int) in H.
  by rewrite !HexadecimalZ.of_to in H.
Qed.

Lemma length_encode_log l :
  length (encode_log l) = (24 * length l)%nat.
Proof.
  induction l as [|r l IH]; [reflexivity|].
  change (encode_log (r :: l)) with (encode_sample r ++ encode_log l).
  rewrite length_app, IH. unfold encode_sample.
  rewrite !length_app, !length_le_split. simpl. lia.
Qed.

Lemma read_loop_encode_log l :
  3 * Z.of_nat (length l) <= Int64.max_int ->
  read_loop (encode_log l) init = foldl push init l.
Proof.
  intros Hmax. rewrite <- (app_nil_r (encode_log l)).
  rewrite read_loop_records; [by simp read_loop|simpl; lia|reflexivity|].
  simpl. lia.
Qed.

Lemma read_sample_logs_order l :
  3 * Z.of_nat (length l) <= Int64.max_int ->
  fst (read_sample_logs (Some (encode_log l))) = map key l.
Proof.
  intros Hmax. unfold read_sample_logs. cbn [fst].
  rewrite read_loop_encode_log by assumption.
  by rewrite foldl_push_order.
Qed.

(** C3. A log of [N] records, each written as three 8-byte little-endian
    words, decodes to [N] addresses in file order, a repeated address
    appearing at each of its positions, and to a mapping that binds every
    address to the count of the last record carrying it; a log that cannot
    be opened decodes to the empty list and the empty mapping. *)
Theorem read_sample_logs_records (l : list sample) :
  3 * Z.of_nat (length l) <= Int64.max_int ->
  length (encode_log l) = (24 * length l)%nat
  /\ fst (read_sample_logs (Some (encode_log l))) = map key l
  /\ length (fst (read_sample_logs (Some (encode_log l)))) = length l
  /\ snd (read_sample_logs (Some (encode_log l))) = bind_all ∅ l
  /\ (forall l1 r l2,
        l = l1 ++ r :: l2 ->
        (forall r', r' ∈ l2 ->
           Int64.wrap (s_addr r') <> Int64.wrap (s_addr r)) ->
        snd (read_sample_logs (Some (encode_log l))) !! key r
          = Some (value r))
  /\ read_sample_logs None = ([], ∅).
Proof.
  intros Hmax. unfold read_sample_logs. cbn [fst snd].
  rewrite read_loop_encode_log by assumption.
  rewrite foldl_push_order, foldl_push_map. cbn [addrs_order addr_access init].
  split; [apply length_encode_log|].
  split; [reflexivity|].
  split; [apply length_map|].
  split; [reflexivity|].
  split; [|reflexivity].
  intros l1 r l2 -> Hlast. apply bind_all_last.
    intros Hin. apply list_elem_of_fmap in Hin as (r' & Hkey & Hr').
    apply sprintf_0x_inj in Hkey. by apply (Hlast r' Hr').
Qed.

Lemma read_sample_logs_records_witness :
  fst (read_sample_logs
         (Some (encode_log [mk_sample 16 0 5; mk_sample 48879 7 3;
                            mk_sample 16 0 9])))
    = map key [mk_sample 16 0 5; mk_sample 48879 7 3; mk_sample 16 0 9].
Proof.
  refine (proj1 (proj2 (read_sample_logs_records
    [mk_sample 16 0 5; mk_sample 48879 7 3; mk_sample 16 0 9] _))).
  unfold Int64.max_int. cbn [length]. lia.
Defined.

Lemma read_loop_step file st :
  file <> [] ->
  read_loop file st = read_loop (drop 8 file) (body (take 8 file) st).
Proof. destruct file; [congruence|]. intros _. by simp read_loop. Qed.

Lemma last_word_spec l :
  last_word l = match last l with Some r => value r | None => 0 end.
Proof.
  unfold last_word. destruct l as [|r l] using rev_ind; [reflexivity|].
  by rewrite foldl_app, last_snoc.
Qed.

(** C4, as stated, fails: one record followed by a single stray byte
    decodes to two addresses, the second one rendered from the count word
    left in [k]. *)
Lemma read_sample_logs_stray_byte :
  fst (read_sample_logs
         (Some (encode_log [mk_sample 16 0 5] ++ [Byte.x01])))
    = ["0x10"; "0x5"]
  /\ fst (read_sample_logs (Some (encode_log [mk_sample 16 0 5])))
    = ["0x10"].
Proof. vm_compute. split; reflexivity. Qed.

(** The locals after the bytes [tail] that follow complete records. *)
Lemma read_loop_tail tail st :
  0 <= index st -> Int64.rem (index st) 3 = 0 ->
  index st + 3 <= Int64.max_int ->
  (1 <= length tail <= 23)%nat ->
  let w1 := binary_read (take 8 tail) (k st) in
  let st' := read_loop tail st in
  addrs_order st' = addrs_order st ++ [sprintf_0x w1]
  /\ ((length tail <= 16)%nat -> addr_access st' = addr_access st)
  /\ ((16 < length tail)%nat ->
      addr_access st' =
        <[sprintf_0x w1 := Int64.wrap (le_combine (take 8 (drop 8 tail)))]>
          (addr_access st)).
Proof.
  intros Hi H0 Hmax Hlen w1 st'. subst st'.
  assert (A1 : Int64.add (index st) 1 = index st + 1) by (apply add_small; lia).
  assert (A2 : Int64.add (index st) 2 = index st + 2) by (apply add_small; lia).
  assert (A3 : Int64.add (index st + 1) 1 = index st + 2)
    by (rewrite add_small; lia).
  rewrite read_loop_step by (intros ->; simpl in Hlen; lia).
  rewrite (body_addr _ st) by (rewrite ?A2; lia). rewrite A1, A2.
  fold w1.
  destruct (decide (length tail <= 8)%nat) as [Hle8|Hgt8].
  { rewrite drop_ge by lia. simp read_loop.
    cbn [addrs_order addr_access].
    split; [done|]. split; [done|intros; lia]. }
  rewrite read_loop_step
    by (intros Hnil; apply (f_equal length) in Hnil;
        rewrite length_drop in Hnil; simpl in Hnil; lia).
  rewrite body_skip;
    [|cbn [index loc]; rewrite ?rem3_shift by lia; lia..].
  cbn [index loc addr access k addrs_order addr_access]. rewrite A3.
  destruct (decide (length tail <= 16)%nat) as [Hle16|Hgt16].
  { rewrite (drop_ge (drop 8 tail)) by (rewrite length_drop; lia).
    simp read_loop. cbn [addrs_order addr_access].
    split; [done|]. split; [done|intros; lia]. }
  rewrite read_loop_step
    by (intros Hnil; apply (f_equal length) in Hnil;
        rewrite !length_drop in Hnil; simpl in Hnil; lia).
  rewrite body_count;
    [|cbn [index loc]; rewrite ?rem3_shift by lia; lia..].
  cbn [index loc addr access k addrs_order addr_access].
  rewrite (drop_ge (drop 8 (drop 8 tail))) by (rewrite !length_drop; lia).
  simp read_loop. cbn [addrs_order addr_access].
  split; [done|]. split; [intros; lia|]. intros _.
  rewrite (binary_read_short (take 8 (drop 8 (drop 8 tail))))
    by (rewrite length_take, !length_drop; lia).
  unfold binary_read at 1.
  rewrite length_take, length_drop.
  replace (8 `min` (length tail - 8))%nat with 8%nat by lia.
  reflexivity.
Qed.

(** The same situation with the words the decoder is left with spelled
    out: with fewer than 8 appended bytes the extra entry renders the word
    left in [k], and from 17 appended bytes on the extra entry is bound to
    the second appended word. *)
Lemma read_sample_logs_trailing_stale (l : list sample)
    (tail : list Init.Byte.byte) :
  3 * Z.of_nat (length l) + 3 <= Int64.max_int ->
  (1 <= length tail <= 23)%nat ->
  exists extra,
    fst (read_sample_logs (Some (encode_log l ++ tail)))
      = fst (read_sample_logs (Some (encode_log l))) ++ [extra]
    /\ extra = sprintf_0x (binary_read (take 8 tail) (last_word l))
    /\ ((length tail <= 16)%nat ->
        snd (read_sample_logs (Some (encode_log l ++ tail)))
          = snd (read_sample_logs (Some (encode_log l))))
    /\ ((16 < length tail)%nat ->
        snd (read_sample_logs (Some (encode_log l ++ tail)))
          = <[extra := Int64.wrap (le_combine (take 8 (drop 8 tail)))]>
              (snd (read_sample_logs (Some (encode_log l))))).
Proof.
  intros Hmax Hlen. unfold read_sample_logs. cbn [fst snd].
  rewrite read_loop_encode_log by lia.
  rewrite read_loop_records; [|simpl; lia|reflexivity|simpl; lia].
  destruct (read_loop_tail tail (foldl push init l)) as (Ho & Hm1 & Hm2);
    [rewrite foldl_push_index; simpl; lia
    |rewrite foldl_push_index, rem3_mod by (simpl; lia); simpl;
       rewrite Z.mul_comm; apply Z.mod_mul; lia
    |rewrite foldl_push_index; simpl; lia
    |assumption|].
  eexists. split; [exact Ho|]. split; [reflexivity|]. by split.
Qed.

(** C4, amended: bytes appended after [N] complete records, 1 to 23 of
    them, add one entry to the ordered addresses and leave the first [N]
    entries as they are; with 8 bytes or more the entry is the rendering of
    the first appended word.  The mapping is the one of the [N] records
    as long as at most 16 bytes are appended. *)
Theorem read_sample_logs_trailing (l : list sample)
    (tail : list Init.Byte.byte) :
  3 * Z.of_nat (length l) + 3 <= Int64.max_int ->
  (1 <= length tail <= 23)%nat ->
  exists extra,
    fst (read_sample_logs (Some (encode_log l ++ tail)))
      = fst (read_sample_logs (Some (encode_log l))) ++ [extra]
    /\ length (fst (read_sample_logs (Some (encode_log l ++ tail))))
      = S (length l)
    /\ ((8 <= length tail)%nat ->
        extra = sprintf_0x (Int64.wrap (le_combine (take 8 tail))))
    /\ ((length tail <= 16)%nat ->
        snd (read_sample_logs (Some (encode_log l ++ tail)))
          = snd (read_sample_logs (Some (encode_log l)))).
Proof.
  intros Hmax Hlen.
  destruct (read_sample_logs_trailing_stale l tail Hmax Hlen)
    as (extra & Ho & He & Hm & _).
  exists extra. split; [exact Ho|]. split; [|split; [|exact Hm]].
  - rewrite Ho, length_app, read_sample_logs_order, length_map by lia.
    simpl. lia.
  - intros H8. rewrite He. unfold binary_read.
    rewrite length_take. replace (8 `min` length tail)%nat with 8%nat by lia.
    reflexivity.
Qed.

Lemma read_sample_logs_trailing_witness :
  exists extra,
    fst (read_sample_logs
           (Some (encode_log [mk_sample 16 0 5] ++ [Byte.x01; Byte.x02])))
      = fst (read_sample_logs (Some (encode_log [mk_sample 16 0 5])))
        ++ [extra].
Proof.
  destruct (read_sample_logs_trailing [mk_sample 16 0 5]
              [Byte.x01; Byte.x02]) as (extra & H & _).
  - unfold Int64.max_int. cbn [length]. lia.
  - cbn [length]. lia.
  - exists extra. exact H.
Defined.

(** ** Kernel profiler driver *)

Import Profiler.

Lemma get_target_addr_NoDup e : NoDup (snd (get_target_addr e)).
Proof.
  unfold get_target_addr. destruct (targets e) as [|pid rest].
  { simpl. apply NoDup_singleton. }
  unfold range_targets, range_body, chk_prerequisites, exit_handler.
  destruct (stat_log e), (stat_dbgfs e), (insmod_ok e), (stat_pids e),
    (rmmod_ok e), (Decoder.read_sample_logs (log_file e)) as [[|first order] m];
    simpl;
    repeat (apply NoDup_cons; split;
            [rewrite ?elem_of_cons, elem_of_nil; intuition discriminate|]);
    apply NoDup_nil_2.
Qed.

(** C9. [get_target_addr] reports failure, with the address "" and the
    count -1, when [get_pid] finds no process, when the module directory is
    missing and the insertion fails, when the pids file is missing or is a
    directory, when the removal fails, and when the decoded order is empty;
    in every other case it reports success with the first decoded address
    and the count the mapping holds for it (0 when it holds none).  No
    action on the host is performed twice within one call. *)
Theorem get_target_addr_outcomes (e : env) :
  let r := fst (get_target_addr e) in
  let decoded := Decoder.read_sample_logs (log_file e) in
  (targets e = [] -> r = ("", -1, false))
  /\ (stat_dbgfs e <> StatDir -> insmod_ok e = false -> r = ("", -1, false))
  /\ (stat_pids e <> StatFile -> r = ("", -1, false))
  /\ (rmmod_ok e = false -> r = ("", -1, false))
  /\ (fst decoded = [] -> r = ("", -1, false))
  /\ (targets e <> [] ->
      (stat_dbgfs e = StatDir \/ insmod_ok e = true) ->
      stat_pids e = StatFile -> rmmod_ok e = true ->
      forall first rest, fst decoded = first :: rest ->
        r = (first, default 0 (snd decoded !! first), true))
  /\ NoDup (snd (get_target_addr e)).
Proof.
  intros r decoded. subst r decoded.
  split; [|split; [|split; [|split; [|split; [|split]]]]];
    try apply get_target_addr_NoDup;
    unfold get_target_addr, range_targets, range_body, chk_prerequisites,
      exit_handler;
    destruct (targets e) as [|pid pids], (stat_log e), (stat_dbgfs e),
      (insmod_ok e), (stat_pids e), (rmmod_ok e),
      (Decoder.read_sample_logs (log_file e)) as [[|a order] m];
    simpl; intros; try reflexivity; try congruence;
    try (intuition congruence).
Qed.

Lemma get_target_addr_outcomes_witness :
  fst (get_target_addr
         (mk_env ["4242"] StatFile StatErr false StatFile true None))
    = ("", -1, false).
Proof.
  refine (proj1 (proj2 (get_target_addr_outcomes
    (mk_env ["4242"] StatFile StatErr false StatFile true None))) _ _).
  - discriminate.
  - reflexivity.
Defined.

(** ** Control loop *)

Import Monitor.

Lemma delayStates_total w i v :
  0 <= i <= Int64.max_int -> exists d s, delayStates w i v = Some (d, s).
Proof.
  intros Hi. destruct (Z.eq_dec i 0) as [->|Hne]; [by eexists _, _|].
  destruct (get_in_range w (i mod 3)) as [slot Hslot];
    [apply Z.mod_pos_bound; lia|].
  destruct (get_in_range w ((i - 1) mod 3)) as [prior Hprior];
    [apply Z.mod_pos_bound; lia|].
  rewrite (delayStates_pos w i v slot prior) by (lia || assumption).
  by eexists _, _.
Qed.

(** The three ways an iteration with a sample ends. *)
Lemma cycle_cases st addr acc_num :
  0 <= index st <= Int64.max_int ->
  let inx := Int64.rem (index st) 3 in
  let addr_acc := addr +:+ " " +:+ Itoa acc_num in
  exists delay_int dstats acc_cmp acc1 delays_t delays_f jd,
    delayStates (last_delay st) (index st) (delay_interval st)
      = Some (delay_int, dstats)
    /\ adjusted st acc_num = Some acc_cmp
    /\ Arr3.set (last_addr_acc st) inx acc_cmp = Some acc1
    /\ Arr3.set (last_delay st) inx true = Some delays_t
    /\ Arr3.set (last_delay st) inx false = Some delays_f
    /\ judge_delay acc1 inx = Some jd
    /\ cycle st (addr, acc_num, true) =
         Some (if acc_num >? 3000 then
                 ({| last_addr_acc := last_addr_acc st;
                     last_delay := delays_t;
                     index := Int64.add (index st) 1;
                     delay_interval := interval |},
                  mitigation_trace addr addr_acc)
               else if (acc_cmp <=? 80) || negb jd then
                 ({| last_addr_acc :=
                       if dstats then last_addr_acc st else acc1;
                     last_delay := delays_f;
                     index := Int64.add (index st) 1;
                     delay_interval := delay_int |},
                  [sleep_ms delay_int])
               else
                 ({| last_addr_acc := acc1;
                     last_delay := delays_t;
                     index := Int64.add (index st) 1;
                     delay_interval := interval |},
                  mitigation_trace addr addr_acc)).
Proof.
  intros Hi inx addr_acc.
  assert (Hinx : 0 <= inx < 3)
    by (pose proof (rem3_cases (index st) ltac:(lia)); unfold inx; lia).
  destruct (delayStates_total (last_delay st) (index st) (delay_interval st) Hi)
    as (delay_int & dstats & Hds).
  destruct (get_in_range (last_addr_acc st) inx Hinx) as [old_acc Hold].
  destruct (get_in_range (last_addr_acc st) (Int64.rem (Int64.add inx 2) 3))
    as [last_acc Hlast].
  { rewrite slot_next by assumption. apply Z.mod_pos_bound. lia. }
  set (acc_cmp := make_up dstats acc_num last_acc).
  destruct (set_in_range (last_addr_acc st) inx acc_cmp Hinx) as [acc1 Hacc1].
  destruct (set_in_range acc1 inx old_acc Hinx) as [acc2 Hacc2].
  pose proof (set_set_get _ _ _ _ _ _ Hold Hacc1 Hacc2) as ->.
  destruct (set_in_range (last_delay st) inx true Hinx) as [delays_t Ht].
  destruct (set_in_range (last_delay st) inx false Hinx) as [delays_f Hf].
  destruct (judge_delay_total acc1 inx Hinx) as [jd Hjd].
  exists delay_int, dstats, acc_cmp, acc1, delays_t, delays_f, jd.
  split; [exact Hds|]. split.
  { unfold adjusted. fold inx. rewrite Hds. cbn [mbind option_bind].
    by rewrite Hlast. }
  do 4 (split; [assumption|]).
  unfold cycle. cbn [negb]. fold inx. fold addr_acc.
  rewrite Hds. cbn [mbind option_bind]. rewrite Hold, Hlast.
  cbn [mbind option_bind]. fold acc_cmp. rewrite Hacc1.
  cbn [mbind option_bind].
  destruct (acc_num >? 3000).
  { rewrite Hacc2. cbn [mbind option_bind]. unfold mitigate.
    rewrite Ht. reflexivity. }
  destruct (acc_cmp <=? 80); cbn [orb].
  { cbn [mbind option_bind]. rewrite Hf.
    destruct dstats; [rewrite Hacc2|]; reflexivity. }
  rewrite Hjd. cbn [fmap option_fmap option_map mbind option_bind].
  destruct jd; cbn [negb].
  - unfold mitigate. rewrite Ht. reflexivity.
  - rewrite Hf. destruct dstats; [rewrite Hacc2|]; reflexivity.
Qed.

Lemma start_in_mitigation_trace addr addr_acc m :
  Send (Start m) ∈ mitigation_trace addr addr_acc <->
  m = addr_acc /\ Contains addr "0x" = true.
Proof.
  unfold mitigation_trace. destruct (Contains addr "0x"); simpl;
    rewrite ?elem_of_cons, elem_of_nil; unfold sleep_ms;
    split; intros H; try (intuition congruence).
Qed.

(** C7. An iteration whose raw count exceeds 3000 completes and leaves the
    slot of the cycle, and with it the whole window of counts, as it was
    before the iteration, whatever the window holds. *)
Theorem outlier_restores_slot (st : state) (addr : string) (acc_num : Z) :
  0 <= index st <= Int64.max_int ->
  3000 < acc_num ->
  exists st' tr,
    cycle st (addr, acc_num, true) = Some (st', tr)
    /\ Arr3.get (last_addr_acc st') (Int64.rem (index st) 3)
         = Arr3.get (last_addr_acc st) (Int64.rem (index st) 3)
    /\ last_addr_acc st' = last_addr_acc st.
Proof.
  intros Hi Hout.
  destruct (cycle_cases st addr acc_num Hi)
    as (delay_int & dstats & acc_cmp & acc1 & dt & df & jd & _ & _ & _ & _
        & _ & _ & ->).
  destruct (Z.gtb_spec acc_num 3000) as [_|]; [|lia].
  eexists _, _. split; [reflexivity|]. split; reflexivity.
Qed.

Lemma outlier_restores_slot_witness :
  exists st' tr,
    cycle init ("0xdead", 3001, true) = Some (st', tr)
    /\ Arr3.get (last_addr_acc st') (Int64.rem (index init) 3)
         = Arr3.get (last_addr_acc init) (Int64.rem (index init) 3)
    /\ last_addr_acc st' = last_addr_acc init.
Proof.
  apply (outlier_restores_slot init "0xdead" 3001).
  - unfold Int64.max_int. simpl. lia.
  - lia.
Defined.

(** C5, as stated, fails: from the initial state an iteration that reads
    the count 3001 at the address "0xdead" hands the start directive
    "0xdead 3001" to the channel although the window keeps its old
    values. *)
Lemma outlier_cycle_sends_start :
  exists st',
    cycle init ("0xdead", 3001, true) =
      Some (st', [Send (Start "0xdead 3001"); sleep_ms duration; Send Stop;
                  sleep_ms interval])
    /\ last_addr_acc st' = last_addr_acc init.
Proof. eexists. vm_compute. split; reflexivity. Qed.

(** C5, amended: an iteration hands a start directive to the channel
    exactly when the sampled address contains "0x" and either the raw
    count exceeds 3000, in which case the window is left as it was, or the
    raw count is at most 3000, the adjusted value exceeds 80,
    [judge_delay] accepts the window updated with it, and that window is
    the one kept.  The directive is the address, a space and the raw
    count.  An iteration whose sample failed hands over nothing. *)
Theorem cycle_start_condition (st : state) (addr : string) (acc_num : Z) :
  0 <= index st <= Int64.max_int ->
  cycle st (addr, acc_num, false) = Some (st, [sleep_ms (delay_interval st)])
  /\ exists st' tr,
       cycle st (addr, acc_num, true) = Some (st', tr)
       /\ forall m,
            Send (Start m) ∈ tr <->
            m = addr +:+ " " +:+ Itoa acc_num
            /\ Contains addr "0x" = true
            /\ ((3000 < acc_num /\ last_addr_acc st' = last_addr_acc st)
                \/ (acc_num <= 3000
                    /\ exists acc_cmp acc1,
                         adjusted st acc_num = Some acc_cmp
                         /\ 80 < acc_cmp
                         /\ Arr3.set (last_addr_acc st)
                              (Int64.rem (index st) 3) acc_cmp = Some acc1
                         /\ judge_delay acc1 (Int64.rem (index st) 3)
                              = Some true
                         /\ last_addr_acc st' = acc1)).
Proof.
  intros Hi. split; [reflexivity|].
  destruct (cycle_cases st addr acc_num Hi)
    as (delay_int & dstats & acc_cmp & acc1 & dt & df & jd & Hds & Hadj
        & Hacc1 & _ & _ & Hjd & ->).
  destruct (Z.gtb_spec acc_num 3000) as [Hout|Hin].
  { eexists _, _. split; [reflexivity|]. intros m.
    rewrite start_in_mitigation_trace. cbn [last_addr_acc].
    split; [intros [-> Hc]; repeat split; auto|].
    intros (-> & Hc & _). by split. }
  destruct (Z.leb_spec acc_cmp 80) as [Hlow|Hhigh]; cbn [orb].
  { eexists _, _. split; [reflexivity|]. intros m. split.
    - intros Hm. rewrite elem_of_cons, elem_of_nil in Hm.
      destruct Hm as [Hm|[]]. discriminate.
    - intros (_ & _ & [[Hc _]|(_ & c & a & Hc & Hgt & _)]); [lia|].
      rewrite Hadj in Hc. injection Hc as <-. lia. }
  destruct jd; cbn [negb].
  - eexists _, _. split; [reflexivity|]. intros m.
    rewrite start_in_mitigation_trace. cbn [last_addr_acc].
    split; [|intros (-> & Hc & _); by split].
    intros [-> Hc]. split; [reflexivity|]. split; [assumption|].
    right. split; [lia|]. exists acc_cmp, acc1. repeat split; auto.
  - eexists _, _. split; [reflexivity|]. intros m. split.
    + intros Hm. rewrite elem_of_cons, elem_of_nil in Hm.
      destruct Hm as [Hm|[]]. discriminate.
    + intros (_ & _ & [[Hc _]|(_ & c & a & Hc & _ & Ha & Hj & _)]); [lia|].
      rewrite Hadj in Hc. injection Hc as <-.
      rewrite Hacc1 in Ha. injection Ha as <-. congruence.
Qed.

Lemma cycle_start_condition_witness :
  exists st' tr,
    cycle init ("0xdead", 200, true) = Some (st', tr)
    /\ forall m,
         Send (Start m) ∈ tr <->
         m = "0xdead" +:+ " " +:+ Itoa 200
         /\ Contains "0xdead" "0x" = true
         /\ ((3000 < 200 /\ last_addr_acc st' = last_addr_acc init)
             \/ (200 <= 3000
                 /\ exists acc_cmp acc1,
                      adjusted init 200 = Some acc_cmp
                      /\ 80 < acc_cmp
                      /\ Arr3.set (last_addr_acc init)
                           (Int64.rem (index init) 3) acc_cmp = Some acc1
                      /\ judge_delay acc1 (Int64.rem (index init) 3)
                           = Some true
                      /\ last_addr_acc st' = acc1)).
Proof.
  refine (proj2 (cycle_start_condition init "0xdead" 200 _)).
  unfold Int64.max_int. simpl. lia.
Defined.

(** C6, as stated, fails: from the initial state the counts 500, 10, 500 at
    the address "0xdead" hand two start directives to the channel, in the
    first and in the second iteration. *)
Lemma noise_scenario_sends_start :
  exists st tr,
    monitor [("0xdead", 500, true); ("0xdead", 10, true);
             ("0xdead", 500, true)] = Some (st, tr)
    /\ directives tr =
         [Start "0xdead 500"; Stop; Start "0xdead 10"; Stop].
Proof. eexists _, _. vm_compute. split; reflexivity. Qed.

(** C6, amended: from the initial state, three iterations reading the
    counts 500, 10, 500 go as follows.  The first finds the window
    [500, 500, 500] stable and mitigates; the second stores the adjusted
    value 338, which [judge_delay] accepts, and mitigates too; the third
    is rejected by [judge_delay] and only sleeps.  A start directive is
    handed over in the first two iterations when the address contains
    "0x", and in the third iteration never. *)
Theorem noise_scenario_trace (addr : string) :
  cycles init [(addr, 500, true); (addr, 10, true); (addr, 500, true)] =
    Some ({| last_addr_acc := Arr3.mk 500 338 500;
             last_delay := Arr3.mk true true false;
             index := 3;
             delay_interval := 500 |},
          mitigation_trace addr (addr +:+ " 500")
          ++ mitigation_trace addr (addr +:+ " 10")
          ++ [sleep_ms 500])
  /\ directives (mitigation_trace addr (addr +:+ " 500")
                 ++ mitigation_trace addr (addr +:+ " 10")
                 ++ [sleep_ms 500]) =
       if Contains addr "0x"
       then [Start (addr +:+ " 500"); Stop; Start (addr +:+ " 10"); Stop]
       else [Stop; Stop].
Proof.
  unfold cycles, cycle, mitigate, mitigation_trace.
  destruct (Contains addr "0x"); vm_compute; split; reflexivity.
Qed.

Lemma directives_app tr1 tr2 :
  directives (tr1 ++ tr2) = directives tr1 ++ directives tr2.
Proof. unfold directives. apply omap_app. Qed.

Lemma directives_mitigation_trace addr addr_acc :
  directives (mitigation_trace addr addr_acc) =
    if Contains addr "0x" then [Start addr_acc; Stop] else [Stop].
Proof.
  unfold mitigation_trace. destruct (Contains addr "0x"); reflexivity.
Qed.

Lemma active_after_app a ds1 ds2 b :
  active_after a ds1 = Some b ->
  active_after a (ds1 ++ ds2) = active_after b ds2.
Proof.
  revert a. induction ds1 as [|[m|] ds1 IH]; intros a; simpl.
  - by intros [= ->].
  - destruct a; [discriminate|]. apply IH.
  - apply IH.
Qed.

Lemma active_after_prefix a ds1 ds2 :
  is_Some (active_after a (ds1 ++ ds2)) -> is_Some (active_after a ds1).
Proof.
  revert a. induction ds1 as [|[m|] ds1 IH]; intros a; simpl.
  - by eexists.
  - destruct a; [by intros [? [=]]|]. apply IH.
  - apply IH.
Qed.

(** An iteration hands over nothing, a lone [Stop], or a [Start] followed
    by its [Stop]; in the last case the iteration is exactly start, the
    mitigation window, stop, and the baseline sleep. *)
Lemma cycle_directives st s :
  0 <= index st <= Int64.max_int ->
  exists st' tr,
    cycle st s = Some (st', tr)
    /\ (index st' = index st \/ index st' = Int64.add (index st) 1)
    /\ active_after false (directives tr) = Some false
    /\ forall m, Send (Start m) ∈ tr ->
         tr = [Send (Start m); sleep_ms duration; Send Stop;
               sleep_ms interval].
Proof.
  intros Hi. destruct s as [[addr acc_num] [|]].
  2:{ eexists _, _. split; [reflexivity|]. split; [by left|].
      split; [reflexivity|]. intros m Hm.
      rewrite elem_of_cons, elem_of_nil in Hm. destruct Hm as [Hm|[]].
      discriminate. }
  destruct (cycle_cases st addr acc_num Hi)
    as (delay_int & dstats & acc_cmp & acc1 & dt & df & jd & _ & _ & _ & _
        & _ & _ & ->).
  assert (Hmit : forall addr_acc,
    active_after false (directives (mitigation_trace addr addr_acc))
      = Some false
    /\ forall m, Send (Start m) ∈ mitigation_trace addr addr_acc ->
         mitigation_trace addr addr_acc =
           [Send (Start m); sleep_ms duration; Send Stop; sleep_ms interval]).
  { intros addr_acc. rewrite directives_mitigation_trace.
    split; [by destruct (Contains addr "0x")|].
    intros m Hm. apply start_in_mitigation_trace in Hm as [-> Hc].
    unfold mitigation_trace. by rewrite Hc. }
  assert (Hsl : forall d,
    active_after false (directives [sleep_ms d]) = Some false
    /\ forall m, Send (Start m) ∈ [sleep_ms d] ->
         [sleep_ms d] =
           [Send (Start m); sleep_ms duration; Send Stop; sleep_ms interval]).
  { intros d. split; [reflexivity|]. intros m Hm.
    rewrite elem_of_cons, elem_of_nil in Hm. destruct Hm as [Hm|[]].
    discriminate. }
  destruct (acc_num >? 3000); [|destruct (_ || _)];
    eexists _, _; (split; [reflexivity|]); (split; [by right|]);
    first [apply Hmit|apply Hsl].
Qed.

Lemma cycles_directives samples : forall st,
  0 <= index st ->
  index st + Z.of_nat (length samples) <= Int64.max_int ->
  exists st' tr,
    cycles st samples = Some (st', tr)
    /\ active_after false (directives tr) = Some false.
Proof.
  induction samples as [|s samples IH]; intros st Hi Hmax.
  { by eexists _, _. }
  simpl length in Hmax.
  destruct (cycle_directives st s) as (st1 & tr1 & Hc & Hidx & Hact & _);
    [lia|].
  destruct (IH st1) as (st2 & tr2 & Hcs & Hact2).
  { destruct Hidx as [->| ->]; [lia|]. rewrite add_small; lia. }
  { destruct Hidx as [->| ->]; [lia|]. rewrite add_small; lia. }
  exists st2, (tr1 ++ tr2). split.
  - cbn [cycles]. rewrite Hc. cbn [mbind option_bind]. rewrite Hcs.
    reflexivity.
  - rewrite directives_app. by rewrite (active_after_app _ _ _ _ Hact).
Qed.

(** C8. The loop, run on any finite sequence of samples, completes every
    iteration, and in the directives it hands to the channel no start
    directive follows another start directive without a stop directive in
    between, at any point of the run; none is active once an iteration has
    ended.  An iteration that hands over a start directive consists of
    that directive, the mitigation window, the stop directive and the
    baseline sleep. *)
Theorem monitor_directives_sequenced (samples : list Profiler.sample_result) :
  Z.of_nat (length samples) <= Int64.max_int ->
  (exists st tr,
     monitor samples = Some (st, tr)
     /\ active_after false (directives tr) = Some false
     /\ forall ds1 ds2, directives tr = ds1 ++ ds2 ->
          is_Some (active_after false ds1))
  /\ (forall st s, 0 <= index st <= Int64.max_int ->
        exists st' tr,
          cycle st s = Some (st', tr)
          /\ forall m, Send (Start m) ∈ tr ->
               tr = [Send (Start m); sleep_ms duration; Send Stop;
                     sleep_ms interval])
  /\ message Stop = "0x00000 0".
Proof.
  intros Hlen. split; [|split; [|reflexivity]].
  - destruct (cycles_directives samples init) as (st & tr & Hc & Hact);
      [simpl; lia|simpl; lia|].
    exists st, (Sleep (Int64.mul 40 second) :: tr).
    split; [unfold monitor; by rewrite Hc|]. split; [exact Hact|].
    intros ds1 ds2 Hds. apply (active_after_prefix false ds1 ds2).
    rewrite <- Hds. by eexists.
  - intros st s Hi.
    destruct (cycle_directives st s Hi) as (st' & tr & Hc & _ & _ & H).
    by exists st', tr.
Qed.

Lemma monitor_directives_sequenced_witness :
  exists st tr,
    monitor [("0xdead", 200, true); ("", -1, false); ("0xdead", 3001, true)]
      = Some (st, tr)
    /\ active_after false (directives tr) = Some false
    /\ forall ds1 ds2, directives tr = ds1 ++ ds2 ->
         is_Some (active_after false ds1).
Proof.
  refine (proj1 (monitor_directives_sequenced
    [("0xdead", 200, true); ("", -1, false); ("0xdead", 3001, true)] _)).
  unfold Int64.max_int. cbn [length]. lia.
Defined.

(** * Further properties of the control loop *)

Lemma get_set_other {A} (a a' : Arr3.t A) i j v :
  Arr3.set a i v = Some a' -> j <> i -> Arr3.get a' j = Arr3.get a j.
Proof.
  unfold Arr3.get, Arr3.set. destruct a as [x y z]; simpl.
  destruct (Z.eqb_spec i 0); [|destruct (Z.eqb_spec i 1);
    [|destruct (Z.eqb_spec i 2)]]; intros H Hne; try discriminate;
    injection H as <-; simpl;
    destruct (Z.eqb_spec j 0); try lia;
    destruct (Z.eqb_spec j 1); try lia;
    destruct (Z.eqb_spec j 2); try lia; reflexivity.
Qed.



(** X1. An iteration writes one slot only: the two slots other than
    [index mod 3] keep their count and their flag, whatever the sample. *)
Theorem cycle_writes_one_slot (st : state) (s : Profiler.sample_result)
    (j : Z) :
  0 <= index st <= Int64.max_int ->
  j <> Int64.rem (index st) 3 ->
  exists st' tr,
    cycle st s = Some (st', tr)
    /\ Arr3.get (last_addr_acc st') j = Arr3.get (last_addr_acc st) j
    /\ Arr3.get (last_delay st') j = Arr3.get (last_delay st) j.
Proof.
  intros Hi Hj. destruct s as [[addr acc_num] [|]];
    [|by eexists _, _].
  destruct (cycle_cases st addr acc_num Hi)
    as (delay_int & dstats & acc_cmp & acc1 & dt & df & jd & _ & _
        & Hacc1 & Ht & Hf & _ & ->).
  pose proof (get_set_other _ _ _ j _ Hacc1 Hj) as Ha.
  pose proof (get_set_other _ _ _ j _ Ht Hj) as Hdt.
  pose proof (get_set_other _ _ _ j _ Hf Hj) as Hdf.
  destruct (acc_num >? 3000); [|destruct (_ || _)];
    eexists _, _; (split; [reflexivity|]); cbn [last_addr_acc last_delay];
    try destruct dstats; by split.
Qed.

Lemma cycle_writes_one_slot_witness :
  exists st' tr,
    cycle init ("0xdead", 200, true) = Some (st', tr)
    /\ Arr3.get (last_addr_acc st') 2 = Arr3.get (last_addr_acc init) 2
    /\ Arr3.get (last_delay st') 2 = Arr3.get (last_delay init) 2.
Proof.
  apply (cycle_writes_one_slot init ("0xdead", 200, true) 2).
  - unfold Int64.max_int. simpl. lia.
  - discriminate.
Defined.

(** X2. Samples that [get_target_addr] failed to obtain only add sleeps:
    the variables of the loop and the directives handed to the channel
    are those of the run with the failed samples left out. *)
Theorem failed_samples_only_sleep (st : state)
    (samples : list Profiler.sample_result) :
  observable <$> cycles st samples
  = observable <$> cycles st (filter (fun s => sample_ok s = true) samples).
Proof.
  revert st. induction samples as [|s samples IH]; intros st; [reflexivity|].
  destruct s as [[addr acc_num] ok]. destruct ok.
  - rewrite filter_cons_True by reflexivity. cbn [cycles].
    destruct (cycle st (addr, acc_num, true)) as [[st1 tr1]|];
      [|reflexivity].
    cbn [mbind option_bind]. specialize (IH st1).
    destruct (cycles st1 samples) as [[st2 tr2]|],
      (cycles st1 (filter _ samples)) as [[st3 tr3]|];
      cbn in IH |- *; try discriminate; [|reflexivity].
    unfold observable in *. cbn [fst snd] in *.
    injection IH as -> Hd. by rewrite !directives_app, Hd.
  - rewrite filter_cons_False by (cbn; discriminate).
    rewrite <- IH. cbn [cycles cycle negb mbind option_bind].
    destruct (cycles st samples) as [[st2 tr2]|]; reflexivity.
Qed.

Lemma delayStates_interval w i v d s :
  delayStates w i v = Some (d, s) ->
  v ∈ [500; 5000; 30000] -> d ∈ [500; 5000; 30000].
Proof.
  intros H Hv. unfold delayStates in H. destruct (i =? 0).
  { injection H as <- _. unfold interval. in_list. }
  destruct (Arr3.get w _) as [st|]; simpl in H; [|discriminate].
  destruct (Arr3.get w _) as [[]|]; simpl in H; try discriminate.
  { injection H as <- _. unfold interval. in_list. }
  injection H as <- _.
  rewrite !elem_of_cons, elem_of_nil in Hv.
  destruct Hv as [->|[->|[->|[]]]]; vm_compute; in_list.
Qed.

(** What a run keeps true from a state whose interval is one of the three
    steps: it completes, the cycle index has advanced by the number of
    obtained samples, the interval is again one of the three steps, and
    every sleep is one of the four durations of the loop. *)
Lemma cycles_invariants samples : forall st,
  0 <= index st ->
  index st + Z.of_nat (length samples) <= Int64.max_int ->
  delay_interval st ∈ [500; 5000; 30000] ->
  exists st' tr,
    cycles st samples = Some (st', tr)
    /\ index st' =
         index st
         + Z.of_nat (length (filter (fun s => sample_ok s = true) samples))
    /\ delay_interval st' ∈ [500; 5000; 30000]
    /\ forall ns, Sleep ns ∈ tr ->
         ns ∈ [500000000; 5000000000; 30000000000; 8050000000].
Proof.
  induction samples as [|s samples IH]; intros st Hi Hmax Hv.
  { exists st, []. split; [reflexivity|]. split; [simpl; lia|].
    split; [assumption|]. intros ns H. by apply elem_of_nil in H. }
  simpl length in Hmax.
  assert (Hsl : forall d ns, d ∈ [500; 5000; 30000] ->
            Sleep ns ∈ [sleep_ms d] ->
            ns ∈ [500000000; 5000000000; 30000000000; 8050000000]).
  { intros d ns Hd H. rewrite elem_of_cons, elem_of_nil in H.
    destruct H as [[= ->]|[]]. rewrite !elem_of_cons, elem_of_nil in Hd.
    destruct Hd as [->|[->|[->|[]]]]; vm_compute; in_list. }
  assert (Hmt : forall addr addr_acc ns,
            Sleep ns ∈ mitigation_trace addr addr_acc ->
            ns ∈ [500000000; 5000000000; 30000000000; 8050000000]).
  { intros addr addr_acc ns H. unfold mitigation_trace in H.
    destruct (Contains addr "0x"); simpl in H;
      rewrite !elem_of_cons, elem_of_nil in H;
      destruct H as [H|H]; try discriminate;
      repeat (destruct H as [H|H]; try discriminate);
      try (injection H as ->; vm_compute; in_list); destruct H. }
  destruct s as [[addr acc_num] [|]].
  - destruct (cycle_cases st addr acc_num ltac:(lia))
      as (delay_int & dstats & acc_cmp & acc1 & dt & df & jd & Hds & _ & _
          & _ & _ & _ & Hc).
    pose proof (delayStates_interval _ _ _ _ _ Hds Hv) as Hd.
    rewrite filter_cons_True by reflexivity. cbn [cycles]. rewrite Hc.
    set (out := if acc_num >? 3000 then _ else _).
    assert (Hout : index (fst out) = index st + 1
                   /\ delay_interval (fst out) ∈ [500; 5000; 30000]
                   /\ forall ns, Sleep ns ∈ snd out ->
                        ns ∈ [500000000; 5000000000; 30000000000;
                              8050000000]).
    { subst out. destruct (acc_num >? 3000); [|destruct (_ || _)];
        cbn [fst snd index delay_interval];
        (split; [apply add_small; lia|]);
        (split; [first [exact Hd|unfold interval; in_list]|]);
        first [apply Hmt|intros ns; apply (Hsl delay_int ns Hd)]. }
    destruct out as [st1 tr1]. cbn [fst snd] in Hout.
    destruct Hout as (Hi1 & Hv1 & Hs1).
    destruct (IH st1) as (st2 & tr2 & Hcs & Hi2 & Hv2 & Hs2); [lia..|done|].
    exists st2, (tr1 ++ tr2). cbn [mbind option_bind]. rewrite Hcs.
    split; [reflexivity|]. split; [simpl length; lia|].
    split; [assumption|]. intros ns H. apply elem_of_app in H as [H|H]; eauto.
  - rewrite filter_cons_False by (cbn; discriminate).
    destruct (IH st) as (st2 & tr2 & Hcs & Hi2 & Hv2 & Hs2); [lia..|done|].
    exists st2, ([sleep_ms (delay_interval st)] ++ tr2).
    cbn [cycles cycle negb mbind option_bind]. rewrite Hcs.
    split; [reflexivity|]. split; [assumption|]. split; [assumption|].
    intros ns H. apply elem_of_app in H as [H|H]; eauto.
Qed.



(** X4. The cycle index counts the samples that were obtained: after any
    run from the initial state it is the number of samples
    [get_target_addr] reported as successful. *)
Theorem monitor_index_counts (samples : list Profiler.sample_result) :
  Z.of_nat (length samples) <= Int64.max_int ->
  exists st tr,
    monitor samples = Some (st, tr)
    /\ index st =
         Z.of_nat (length (filter (fun s => sample_ok s = true) samples)).
Proof.
  intros Hlen.
  destruct (cycles_invariants samples init) as (st & tr & Hc & Hi & _ & _);
    [simpl; lia|simpl; lia|unfold init, interval; simpl; in_list|].
  exists st, (Sleep (Int64.mul 40 second) :: tr).
  split; [unfold monitor; by rewrite Hc|]. exact Hi.
Qed.

Lemma monitor_index_counts_witness :
  exists st tr,
    monitor [("0xdead", 200, true); ("", -1, false); ("0xdead", 3001, true)]
      = Some (st, tr)
    /\ index st =
         Z.of_nat (length (filter (fun s => sample_ok s = true)
           [("0xdead", 200, true); ("", -1, false); ("0xdead", 3001, true)])).
Proof.
  apply (monitor_index_counts
    [("0xdead", 200, true); ("", -1, false); ("0xdead", 3001, true)]).
  unfold Int64.max_int. cbn [length]. lia.
Defined.

Lemma get_all_false i :
  0 <= i < 3 -> Arr3.get (Arr3.mk false false false) i = Some false.
Proof.
  intros Hi. assert (i = 0 \/ i = 1 \/ i = 2) as [->|[->| ->]] by lia;
    reflexivity.
Qed.

Lemma set_all_false i d :
  0 <= i < 3 ->
  Arr3.set (Arr3.mk false false false) i false = Some d ->
  d = Arr3.mk false false false.
Proof.
  intros Hi. assert (i = 0 \/ i = 1 \/ i = 2) as [->|[->| ->]] by lia;
    by intros [= <-].
Qed.

(** One iteration of a run without mitigation: with [k] samples obtained
    so far the flags of the slots below [k] are cleared, and the iteration
    sleeps the [k]-th interval of the schedule. *)
Lemma quiet_step (k : nat) st addr acc_num st' tr :
  Z.of_nat k < Int64.max_int ->
  index st = Z.of_nat k ->
  last_delay st = Arr3.mk (k <=? 0)%nat (k <=? 1)%nat (k <=? 2)%nat ->
  delay_interval st = quiet_interval (pred k) ->
  cycle st (addr, acc_num, true) = Some (st', tr) ->
  directives tr = [] ->
  tr = [sleep_ms (quiet_interval k)]
  /\ index st' = Z.of_nat (S k)
  /\ last_delay st' = Arr3.mk (S k <=? 0)%nat (S k <=? 1)%nat (S k <=? 2)%nat
  /\ delay_interval st' = quiet_interval k.
Proof.
  intros Hk Hidx Hfl Hint Hc Hd.
  destruct (cycle_cases st addr acc_num ltac:(lia))
    as (delay_int & dstats & acc_cmp & acc1 & dt & df & jd & Hds & _ & _
        & _ & Hf & _ & Hc').
  rewrite Hc in Hc'. rewrite Hidx, Hfl, Hint in Hds.
  rewrite Hidx, Hfl in Hf.
  assert (Hq : delay_int = quiet_interval k
               /\ df = Arr3.mk (S k <=? 0)%nat (S k <=? 1)%nat
                               (S k <=? 2)%nat).
  { destruct k as [|[|[|[|[|k]]]]].
    1-5: vm_compute in Hds, Hf; injection Hds as <- _;
         injection Hf as <-; by split.
    rewrite (delayStates_pos _ _ _ false false) in Hds;
      [|lia|apply get_all_false, Z.mod_pos_bound; lia..].
    injection Hds as <- _. split; [reflexivity|].
    apply (set_all_false (Int64.rem (Z.of_nat (S (S (S (S (S k)))))) 3));
      [|exact Hf].
    pose proof (rem3_cases (Z.of_nat (S (S (S (S (S k)))))) ltac:(lia)).
    lia. }
  destruct Hq as [-> ->].
  destruct (acc_num >? 3000); [|destruct (_ || _)];
    injection Hc' as -> ->;
    try (rewrite directives_mitigation_trace in Hd;
         destruct (Contains addr "0x"); discriminate).
  cbn [index last_delay delay_interval]. split; [reflexivity|].
  split; [rewrite Hidx, add_small; lia|]. by split.
Qed.

Lemma quiet_cycles samples : forall (k : nat) st st' tr,
  Z.of_nat k + Z.of_nat (length samples) <= Int64.max_int ->
  index st = Z.of_nat k ->
  last_delay st = Arr3.mk (k <=? 0)%nat (k <=? 1)%nat (k <=? 2)%nat ->
  delay_interval st = quiet_interval (pred k) ->
  Forall (fun s => sample_ok s = true) samples ->
  cycles st samples = Some (st', tr) ->
  directives tr = [] ->
  tr = map (fun i => sleep_ms (quiet_interval i)) (seq k (length samples)).
Proof.
  induction samples as [|s samples IH];
    intros k st st' tr Hk Hidx Hfl Hint Hok Hc Hd.
  { by injection Hc as _ <-. }
  simpl length in Hk. apply Forall_cons in Hok as [Hs Hok].
  destruct s as [[addr acc_num] ok]. cbn in Hs. subst ok.
  cbn [cycles] in Hc.
  destruct (cycle st (addr, acc_num, true)) as [[st1 tr1]|] eqn:Hc1;
    [|discriminate].
  cbn [mbind option_bind] in Hc.
  destruct (cycles st1 samples) as [[st2 tr2]|] eqn:Hc2; [|discriminate].
  injection Hc as <- <-. rewrite directives_app in Hd.
  apply app_eq_nil in Hd as [Hd1 Hd2].
  destruct (quiet_step k st addr acc_num st1 tr1)
    as (-> & Hi1 & Hf1 & Hv1); try assumption; [lia|].
  simpl. f_equal.
  apply (IH (S k) st1 st2); try assumption. lia.
Qed.

(** X5. A run from the initial state in which every sample is obtained and
    no directive is sent sleeps 500, 500, 500, 5000 and from then on
    30000 ms: the three flags set at start-up delay the escalation by
    three iterations. *)
Theorem quiet_run_schedule (samples : list Profiler.sample_result) st tr :
  Z.of_nat (length samples) <= Int64.max_int ->
  Forall (fun s => sample_ok s = true) samples ->
  cycles init samples = Some (st, tr) ->
  directives tr = [] ->
  tr = map (fun k => sleep_ms (quiet_interval k)) (seq 0 (length samples)).
Proof.
  intros Hlen Hok Hc Hd.
  by apply (quiet_cycles samples 0%nat init st tr).
Qed.

Lemma quiet_run_schedule_witness :
  exists st tr,
    cycles init [("0x1", 3000, true); ("0x1", 100, true);
                 ("0x1", 3000, true); ("0x1", 100, true);
                 ("0x1", 3000, true)] = Some (st, tr)
    /\ tr = map (fun k => sleep_ms (quiet_interval k)) (seq 0 5).
Proof.
  eexists _, _. split; [vm_compute; reflexivity|].
  eapply (quiet_run_schedule
    [("0x1", 3000, true); ("0x1", 100, true); ("0x1", 3000, true);
     ("0x1", 100, true); ("0x1", 3000, true)]).
  - unfold Int64.max_int. cbn [length]. lia.
  - repeat constructor.
  - vm_compute. reflexivity.
  - vm_compute. reflexivity.
Defined.

(** ** The compensated count *)

Lemma compensation_floor d :
  0 <= d <= 3000 -> compensation d = 67 * d / 100.
Proof.
  intros Hd.
  assert (Hall : forallb (fun n => compensation (Z.of_nat n)
                                   =? 67 * Z.of_nat n / 100)
                         (seq 0 3001) = true) by (vm_compute; reflexivity).
  rewrite forallb_forall in Hall.
  specialize (Hall (Z.to_nat d)). rewrite Z2Nat.id in Hall by lia.
  apply Z.eqb_eq, Hall, in_seq. lia.
Qed.

Lemma make_up_range (dstats : bool) (acc_num last_acc : Z) :
  0 <= acc_num <= 3000 -> 0 <= last_acc <= 3000 ->
  make_up dstats acc_num last_acc =
    (if dstats && (acc_num <? last_acc)
     then acc_num + 67 * (last_acc - acc_num) / 100 else acc_num)
  /\ 0 <= make_up dstats acc_num last_acc <= 3000
  /\ acc_num <= make_up dstats acc_num last_acc <= Z.max acc_num last_acc.
Proof.
  intros Ha Hl. unfold make_up.
  destruct (dstats && (acc_num <? last_acc)) eqn:Hb; [|lia].
  apply andb_true_iff in Hb as [_ Hlt]. apply Z.ltb_lt in Hlt.
  assert (Int64.sub last_acc acc_num = last_acc - acc_num) as ->.
  { apply wrap_in_range. unfold Int64.in_range, Int64.min_int,
      Int64.max_int. lia. }
  fold (compensation (last_acc - acc_num)).
  rewrite compensation_floor by lia.
  assert (0 <= 67 * (last_acc - acc_num) / 100 <= last_acc - acc_num).
  { split; [apply Z.div_pos; lia|].
    apply Z.div_le_upper_bound; lia. }
  rewrite add_small by (unfold Int64.max_int; lia). lia.
Qed.

(** X6. For counts between 0 and 3000 the compensated count is the raw
    count plus 67 hundredths of the drop below the comparison count,
    rounded down, when the previous cycle mitigated and the count
    dropped, and the raw count otherwise; it never leaves the interval
    between the raw count and the comparison count. *)
Theorem make_up_between (dstats : bool) (acc_num last_acc : Z) :
  0 <= acc_num <= 3000 -> 0 <= last_acc <= 3000 ->
  make_up dstats acc_num last_acc =
    (if dstats && (acc_num <? last_acc)
     then acc_num + 67 * (last_acc - acc_num) / 100 else acc_num)
  /\ acc_num <= make_up dstats acc_num last_acc <= Z.max acc_num last_acc.
Proof.
  intros Ha Hl.
  destruct (make_up_range dstats acc_num last_acc Ha Hl) as (H1 & _ & H2).
  by split.
Qed.

Lemma make_up_between_witness :
  make_up true 10 500 = 10 + 67 * (500 - 10) / 100
  /\ 10 <= make_up true 10 500 <= Z.max 10 500.
Proof. apply (make_up_between true 10 500); lia. Defined.




(** * Further properties of the decoder *)

Lemma body_order_map data st :
  exists a,
    (addrs_order (body data st) = addrs_order st
     \/ (addrs_order (body data st) = addrs_order st ++ [a]
         /\ a = sprintf_0x (binary_read data (k st))
         /\ addr (body data st) = a))
    /\ (addr (body data st) = addr st
        \/ addr (body data st) = a
           /\ addrs_order (body data st) = addrs_order st ++ [a])
    /\ (addr_access (body data st) = addr_access st
        \/ addr_access (body data st)
           = <[addr (body data st) := binary_read data (k st)]>
               (addr_access st)
           /\ (Int64.rem (Decoder.index st) 3 = 0
               \/ Decoder.index st = loc st
                  /\ Int64.rem (Decoder.index st) 3 <> 0))
    /\ k (body data st) = binary_read data (k st).
Proof.
  exists (sprintf_0x (binary_read data (k st))). unfold body.
  destruct (Z.eqb_spec (Int64.rem (Decoder.index st) 3) 0) as [H0|H0];
    cbn [Decoder.index loc addr access k addrs_order addr_access].
  - destruct (Z.eqb_spec (Decoder.index st) (Int64.add (Decoder.index st) 2));
      cbn [Decoder.index loc addr access k addrs_order addr_access];
      (split; [right; by repeat split|]); (split; [right; by split|]);
      (split; [|reflexivity]); [right|left]; auto.
  - destruct (Z.eqb_spec (Decoder.index st) (loc st));
      cbn [Decoder.index loc addr access k addrs_order addr_access];
      (split; [by left|]); (split; [by left|]);
      (split; [|reflexivity]); [right|left]; auto.
Qed.

Lemma body_index data st :
  Decoder.index (body data st) = Int64.add (Decoder.index st) 1
  /\ (loc (body data st) = loc st /\ Int64.rem (Decoder.index st) 3 <> 0
      \/ loc (body data st) = Int64.add (Decoder.index st) 2
         /\ Int64.rem (Decoder.index st) 3 = 0).
Proof.
  unfold body.
  destruct (Z.eqb_spec (Int64.rem (Decoder.index st) 3) 0) as [H0|H0];
    cbn [Decoder.index loc addr access k addrs_order addr_access];
    match goal with |- context [if ?c then _ else _] => destruct c end;
    cbn [Decoder.index loc]; (split; [reflexivity|]); [right|right|left|left];
    by split.
Qed.

Lemma binary_read_range data k0 :
  Int64.in_range k0 -> Int64.in_range (binary_read data k0).
Proof.
  intros Hk. unfold binary_read.
  destruct (_ =? _)%nat; [apply wrap_range|assumption].
Qed.

Lemma body_inv data st : decoder_inv st -> decoder_inv (body data st).
Proof.
  intros (Hk & Hr & Hm & Ha).
  destruct (body_order_map data st) as (a & Ho & Had & Hmap & Hk').
  pose proof (binary_read_range data (k st) Hk) as Hkr.
  assert (Hsub : forall x, x ∈ addrs_order st ->
                   x ∈ addrs_order (body data st)).
  { intros x Hx. destruct Ho as [->|(-> & _)]; [done|].
    apply elem_of_app. by left. }
  assert (Hcur : addr (body data st) ∈ addrs_order (body data st)
                 \/ Int64.rem (Decoder.index st) 3 = 0 /\ Decoder.index st = 0).
  { destruct Had as [Hsame|[-> ->]].
    - rewrite Hsame. destruct Ha as [Ha|Ha]; [left; by apply Hsub|].
      right. by rewrite Ha.
    - left. apply elem_of_app. right. apply list_elem_of_here. }
  assert (Hcur' : addr (body data st) ∈ addrs_order (body data st)).
  { destruct Hcur as [|[H0 Hi0]]; [done|].
    unfold body. rewrite H0.
    cbn [Decoder.index loc addr access k addrs_order addr_access Z.eqb].
    destruct (_ =? _); cbn [addr addrs_order];
      apply elem_of_app; right; apply list_elem_of_here. }
  split; [by rewrite Hk'|]. split; [|split; [|by left]].
  - destruct Ho as [->|(-> & -> & _)]; [done|].
    apply Forall_app. split; [done|].
    apply Forall_cons. split; [by eexists|constructor].
  - intros x Hx. destruct Hmap as [Hsame|[Hins _]].
    + rewrite Hsame in Hx. by apply Hsub, Hm.
    + rewrite Hins in Hx.
      destruct (decide (addr (body data st) = x)) as [<-|Hne]; [done|].
      rewrite lookup_insert_ne in Hx by done. by apply Hsub, Hm.
Qed.

Lemma read_loop_inv file st :
  decoder_inv st -> decoder_inv (read_loop file st).
Proof.
  funelim (read_loop file st); [done|].
  intros Hinv.
  match goal with IH : decoder_inv _ -> _ |- _ => apply IH end.
  by apply body_inv.
Qed.

Lemma init_inv : decoder_inv Decoder.init.
Proof.
  split; [|split; [constructor|split; [|by right]]].
  - unfold Int64.in_range, Int64.min_int, Int64.max_int. simpl. lia.
  - intros a [v Hv]. unfold Decoder.init in Hv. cbn [addr_access] in Hv.
    by rewrite lookup_empty in Hv.
Qed.

(** X8. Whatever the log holds, every address to which the decoder binds a
    count is among the ordered addresses it returns. *)
Theorem mapping_keys_in_order (log : option (list Init.Byte.byte))
    (a : string) :
  is_Some (snd (read_sample_logs log) !! a) ->
  a ∈ fst (read_sample_logs log).
Proof.
  destruct log as [file|]; cbn [read_sample_logs fst snd].
  - destruct (read_loop_inv file Decoder.init init_inv)
      as (_ & _ & Hm & _). apply Hm.
  - intros [v Hv]. by rewrite lookup_empty in Hv.
Qed.

Lemma mapping_keys_in_order_witness :
  "0x10" ∈ fst (read_sample_logs
                  (Some (encode_log [mk_sample 16 0 5; mk_sample 32 0 7]))).
Proof.
  apply (mapping_keys_in_order
           (Some (encode_log [mk_sample 16 0 5; mk_sample 32 0 7])) "0x10").
  exists 5. vm_compute. reflexivity.
Defined.

Lemma body_order_length data st :
  length (addrs_order (body data st)) =
    (length (addrs_order st)
     + if (Int64.rem (Decoder.index st) 3 =? 0)%Z then 1 else 0)%nat.
Proof.
  unfold body. destruct (Int64.rem (Decoder.index st) 3 =? 0);
    cbn [Decoder.index loc addr access k addrs_order addr_access];
    match goal with |- context [if ?c then _ else _] => destruct c end;
    cbn [addrs_order]; rewrite ?length_app; simpl; lia.
Qed.

Lemma read_loop_count file st : forall i : nat,
  Decoder.index st = Z.of_nat i ->
  Z.of_nat i + (Z.of_nat (length file) + 7) / 8 <= Int64.max_int ->
  Z.of_nat (length (addrs_order (read_loop file st))) =
    Z.of_nat (length (addrs_order st))
    + ((Z.of_nat i + (Z.of_nat (length file) + 7) / 8 + 2) / 3
       - (Z.of_nat i + 2) / 3).
Proof.
  funelim (read_loop file st); intros i Hi Hmax.
  { cbn [length]. rewrite (Z.div_small (Z.of_nat 0 + 7) 8) by (simpl; lia).
    rewrite Z.add_0_r. lia. }
  set (file := b :: rest) in *.
  assert (Hlen : (Z.of_nat (length file) + 7) / 8
                 = 1 + (Z.of_nat (length (drop 8 file)) + 7) / 8).
  { rewrite length_drop. subst file. simpl length.
    destruct (le_lt_dec 8 (S (length rest))) as [Hge|Hlt].
    - replace (Z.of_nat (S (length rest) - 8))
        with (Z.of_nat (S (length rest)) - 8) by lia.
      replace (Z.of_nat (S (length rest)) + 7)
        with (Z.of_nat (S (length rest)) - 8 + 7 + 1 * 8) by lia.
      rewrite Z.div_add by lia. lia.
    - replace (S (length rest) - 8)%nat with 0%nat by lia.
      change ((Z.of_nat 0 + 7) / 8) with 0.
      assert (Z.of_nat (S (length rest)) + 7 = 1 * 8 + Z.of_nat (length rest))
        as -> by lia.
      rewrite Z.add_comm, Z.div_add by lia.
      rewrite Z.div_small by lia. lia. }
  rewrite Hlen in *.
  assert (Hpos : 0 <= (Z.of_nat (length (drop 8 file)) + 7) / 8)
    by (apply Z.div_pos; lia).
  destruct (body_index (take 8 file) st) as [Hbi _].
  rewrite Hi, add_small in Hbi by lia.
  match goal with IH : forall i : nat, _ |- _ =>
    rewrite (IH (S i)) by (rewrite ?Hbi; lia) end.
  rewrite body_order_length, Hi, rem3_mod by lia.
  generalize dependent ((Z.of_nat (length (drop 8 file)) + 7) / 8).
  intros X _ _ _ HX.
  replace (Z.of_nat (S i) + X + 2) with (Z.of_nat i + (1 + X) + 2) by lia.
  replace (Z.of_nat (S i) + 2) with (Z.of_nat i + 2 + 1) by lia.
  generalize ((Z.of_nat i + (1 + X) + 2) / 3). intros Y.
  destruct (Z.eqb_spec (Z.of_nat i mod 3) 0) as [H0|H0];
    rewrite Nat2Z.inj_add; simpl Z.of_nat;
    Z.div_mod_to_equations; lia.
Qed.

(** X9. Whatever bytes the log holds, the decoder returns one address per
    group of three words begun: a log of [n] bytes, read as [(n+7)/8]
    words, decodes to [((n+7)/8 + 2)/3] ordered addresses. *)
Theorem read_sample_logs_address_count (file : list Init.Byte.byte) :
  (Z.of_nat (length file) + 7) / 8 <= Int64.max_int ->
  Z.of_nat (length (fst (read_sample_logs (Some file)))) =
    ((Z.of_nat (length file) + 7) / 8 + 2) / 3.
Proof.
  intros Hmax. cbn [read_sample_logs fst].
  rewrite (read_loop_count file Decoder.init 0%nat) by (simpl; lia).
  cbn [addrs_order Decoder.init length]. change (Z.of_nat 0) with 0.
  rewrite !Z.add_0_l. change (2 / 3) with 0. lia.
Qed.

Lemma read_sample_logs_address_count_witness :
  Z.of_nat (length (fst (read_sample_logs
    (Some (encode_log [mk_sample 16 0 5] ++ [Byte.x01; Byte.x02]))))) =
    ((Z.of_nat (length (encode_log [mk_sample 16 0 5]
                        ++ [Byte.x01; Byte.x02])) + 7) / 8 + 2) / 3.
Proof.
  apply (read_sample_logs_address_count
           (encode_log [mk_sample 16 0 5] ++ [Byte.x01; Byte.x02])).
  vm_compute. discriminate.
Defined.

(** * Further properties of the profiler driver *)

(** X10. Every call of [get_target_addr] that switches tracing on
    continues with the 100 ms window, switches tracing off and attempts to
    remove the module, and only reads the log after that, when the
    removal succeeded; it never inserts the module when the module
    directory is present, and renames the old log only when it is a
    regular file. *)
Theorem tracing_is_bracketed (e : env) :
  (TracingOn ∈ snd (get_target_addr e) ->
   exists pid pre post,
     snd (get_target_addr e)
       = pre ++ [EchoPid pid; TracingOn; SleepMs 100; TracingOff; Rmmod]
             ++ post
     /\ (post = [] /\ rmmod_ok e = false
         \/ post = [ReadLog] /\ rmmod_ok e = true))
  /\ (ReadLog ∈ snd (get_target_addr e) ->
      TracingOn ∈ snd (get_target_addr e))
  /\ (Insmod ∈ snd (get_target_addr e) -> stat_dbgfs e <> StatDir)
  /\ (RenameLog ∈ snd (get_target_addr e) -> stat_log e = StatFile).
Proof.
  unfold get_target_addr, range_targets, range_body, chk_prerequisites,
    exit_handler.
  destruct (targets e) as [|pid pids], (stat_log e), (stat_dbgfs e),
    (insmod_ok e), (stat_pids e), (rmmod_ok e),
    (Decoder.read_sample_logs (log_file e)) as [[|a order] m];
    cbn; (split; [|split; [|split]]); intros H;
    first
      [ exfalso; rewrite ?elem_of_cons, elem_of_nil in H;
        solve [intuition discriminate]
      | discriminate
      | reflexivity
      | solve [in_list]
      | exists pid;
        first [ by exists [GetPid], []; split; [|left]
              | by exists [GetPid], [ReadLog]; split; [|right]
              | by exists [GetPid; RenameLog], []; split; [|left]
              | by exists [GetPid; RenameLog], [ReadLog]; split; [|right]
              | by exists [GetPid; Insmod], []; split; [|left]
              | by exists [GetPid; Insmod], [ReadLog]; split; [|right]
              | by exists [GetPid; RenameLog; Insmod], []; split; [|left]
              | by exists [GetPid; RenameLog; Insmod], [ReadLog];
                  split; [|right] ] ].
Qed.

Lemma tracing_is_bracketed_witness :
  exists pid pre post,
    snd (get_target_addr
           (mk_env ["4242"] StatFile StatDir false StatFile true None))
      = pre ++ [EchoPid pid; TracingOn; SleepMs 100; TracingOff; Rmmod]
            ++ post
    /\ (post = [] /\ true = false \/ post = [ReadLog] /\ true = true).
Proof.
  refine (proj1 (tracing_is_bracketed
    (mk_env ["4242"] StatFile StatDir false StatFile true None)) _).
  vm_compute. in_list.
Defined.

Lemma get_target_addr_healthy e :
  healthy e ->
  fst (get_target_addr e) =
    match Decoder.read_sample_logs (log_file e) with
    | ([], _) => ("", -1, false)
    | (first :: _, m) => (first, default 0 (m !! first), true)
    end.
Proof.
  destruct e as [ts sl sd io sp ro lf]. unfold healthy. cbn.
  intros (Ht & Hm & -> & ->).
  unfold get_target_addr, range_targets, range_body, chk_prerequisites,
    exit_handler. cbn.
  destruct ts as [|pid pids]; [done|].
  destruct sl; destruct Hm as [-> | ->]; try destruct sd;
    cbn; by destruct (Decoder.read_sample_logs lf) as [[|a o] m].
Qed.

Lemma get_target_addr_success e addr n :
  fst (get_target_addr e) = (addr, n, true) ->
  exists rest, fst (Decoder.read_sample_logs (log_file e)) = addr :: rest.
Proof.
  unfold get_target_addr, range_targets, range_body, chk_prerequisites,
    exit_handler.
  destruct (targets e) as [|pid pids], (stat_log e), (stat_dbgfs e),
    (insmod_ok e), (stat_pids e), (rmmod_ok e),
    (Decoder.read_sample_logs (log_file e)) as [[|a order] m];
    cbn; intros [= <- <-] || intros [=]; by eexists.
Qed.

Lemma nzhead_not_D0 d d' : Hexadecimal.nzhead d <> Hexadecimal.D0 d'.
Proof. induction d; simpl; try discriminate. exact IHd. Qed.

Lemma to_hex_uint_head p d :
  Pos.to_hex_uint p <> Hexadecimal.D0 d.
Proof.
  intros H.
  pose proof (HexadecimalPos.Unsigned.to_of (Pos.to_hex_uint p)) as Hn.
  rewrite HexadecimalPos.Unsigned.of_to in Hn.
  change (N.to_hex_uint (N.pos p)) with (Pos.to_hex_uint p) in Hn.
  rewrite H in Hn at 1. unfold Hexadecimal.unorm in Hn.
  rewrite H in Hn.
  destruct (Hexadecimal.nzhead (Hexadecimal.D0 d)) eqn:Hz;
    try (by apply nzhead_not_D0 in Hz); try discriminate.
  injection Hn as ->.
  pose proof (HexadecimalPos.Unsigned.of_to p) as Hp. rewrite H in Hp.
  discriminate.
Qed.

(** A rendered address is "0x" followed by a non-empty digit string that
    starts with the digit 0 only when it is "0" itself. *)
Lemma sprintf_0x_shape k :
  exists c rest,
    sprintf_0x k = String "0" (String "x" (String c rest))
    /\ (c = "0"%char -> rest = EmptyString).
Proof.
  unfold sprintf_0x. destruct k as [|p|p]; cbn.
  - by eexists _, _.
  - pose proof (to_hex_uint_head p) as Hh.
    destruct (Pos.to_hex_uint p) eqn:Hu; cbn;
      try (eexists _, _; split; [reflexivity|discriminate]).
    + by apply to_hex_uint_not_nil in Hu.
    + by destruct (Hh u).
  - eexists _, _. split; [reflexivity|discriminate].
Qed.

(** X11. An address that [get_target_addr] returns with success is the
    rendering "0x..." of a 64-bit word: it passes the test
    [strings.Contains(addr, "0x")] of the control loop, and the start
    directive built from it, whatever the count, differs from the stop
    directive "0x00000 0". *)
Theorem sampled_address_wellformed (e : env) (addr : string) (n : Z) :
  fst (get_target_addr e) = (addr, n, true) ->
  rendered addr
  /\ Contains addr "0x" = true
  /\ forall m, addr +:+ " " +:+ Itoa m <> stopSig.
Proof.
  intros Hok. destruct (get_target_addr_success e addr n Hok) as [rest Hd].
  assert (Hr : rendered addr).
  { destruct (log_file e) as [file|]; [|discriminate].
    cbn [Decoder.read_sample_logs fst] in Hd.
    destruct (read_loop_inv file Decoder.init init_inv) as (_ & Hall & _).
    rewrite Hd in Hall. by apply Forall_cons in Hall as [? _]. }
  split; [exact Hr|]. destruct Hr as (k0 & _ & ->).
  destruct (sprintf_0x_shape k0) as (c & tl & -> & Hc).
  split; [reflexivity|].
  intros m. unfold stopSig. cbn. intros [= -> Htl].
  rewrite (Hc eq_refl) in Htl. discriminate.
Qed.

Lemma sampled_address_wellformed_witness :
  rendered "0x10"
  /\ Contains "0x10" "0x" = true
  /\ forall m, "0x10" +:+ " " +:+ Itoa m <> stopSig.
Proof.
  apply (sampled_address_wellformed
           (mk_env ["4242"] StatFile StatDir false StatFile true
              (Some (encode_log [mk_sample 16 0 5]))) "0x10" 5).
  vm_compute. reflexivity.
Defined.

(** X12. When the host lets the call run to the decoder and the log holds
    1 to 16 bytes, an address with no count word, [get_target_addr]
    reports success with the count 0: the address is the rendering of the
    first word when the log holds 8 bytes or more, and "0x0" otherwise. *)
Theorem short_log_count_zero (e : env) (bytes : list Init.Byte.byte) :
  healthy e ->
  log_file e = Some bytes ->
  (1 <= length bytes <= 16)%nat ->
  fst (get_target_addr e) =
    (sprintf_0x (if (8 <=? length bytes)%nat
                 then Int64.wrap (le_combine (take 8 bytes)) else 0),
     0, true).
Proof.
  intros Hh Hlog Hlen. rewrite (get_target_addr_healthy e Hh), Hlog.
  cbn [Decoder.read_sample_logs].
  destruct (read_loop_tail bytes Decoder.init) as (Ho & Hm & _);
    [done|done|unfold Int64.max_int; simpl; lia|lia|].
  cbn [addrs_order addr_access Decoder.init k app] in Ho, Hm.
  assert (Hw : binary_read (take 8 bytes) 0 =
               if (8 <=? length bytes)%nat
               then Int64.wrap (le_combine (take 8 bytes)) else 0).
  { unfold binary_read. rewrite length_take.
    destruct (Nat.leb_spec 8 (length bytes)).
    - replace (8 `min` length bytes)%nat with 8%nat by lia. reflexivity.
    - destruct (Nat.eqb_spec (8 `min` length bytes) 8); [lia|reflexivity]. }
  rewrite Ho, Hm, Hw, lookup_empty by lia. reflexivity.
Qed.

Lemma short_log_count_zero_witness :
  fst (get_target_addr
         (mk_env ["4242"] StatFile StatDir false StatFile true
            (Some [Byte.x01; Byte.x02])))
    = (sprintf_0x (if (8 <=? length [Byte.x01; Byte.x02])%nat
                   then Int64.wrap (le_combine (take 8 [Byte.x01; Byte.x02]))
                   else 0), 0, true).
Proof.
  apply (short_log_count_zero
           (mk_env ["4242"] StatFile StatDir false StatFile true
              (Some [Byte.x01; Byte.x02])) [Byte.x01; Byte.x02]).
  - unfold healthy. cbn. repeat split; auto; discriminate.
  - reflexivity.
  - cbn [length]. lia.
Defined.

(** X13. When the host lets the call run to the decoder and the log holds
    complete records, [get_target_addr] returns the address of the first
    record together with the count of the last record that carries this
    address, which need not be the first record. *)
Theorem first_address_last_count (e : env) (r : sample) (l : list sample)
    (l1 l2 : list sample) (r' : sample) :
  healthy e ->
  log_file e = Some (encode_log (r :: l)) ->
  3 * Z.of_nat (length (r :: l)) <= Int64.max_int ->
  r :: l = l1 ++ r' :: l2 ->
  Int64.wrap (s_addr r') = Int64.wrap (s_addr r) ->
  (forall x, x ∈ l2 -> Int64.wrap (s_addr x) <> Int64.wrap (s_addr r)) ->
  fst (get_target_addr e) = (key r, value r', true).
Proof.
  intros Hh Hlog Hmax Hsplit Hsame Hlast.
  rewrite (get_target_addr_healthy e Hh), Hlog.
  cbn [Decoder.read_sample_logs].
  rewrite read_loop_encode_log by assumption.
  rewrite foldl_push_order, foldl_push_map.
  cbn [addrs_order addr_access Decoder.init app map].
  assert (Hkey : key r' = key r) by (unfold key; by rewrite Hsame).
  rewrite Hsplit, <- Hkey, bind_all_last; [reflexivity|].
  intros Hin. apply list_elem_of_fmap in Hin as (x & Hx & Hxin).
  apply sprintf_0x_inj in Hx. apply (Hlast x Hxin). congruence.
Qed.

Lemma first_address_last_count_witness :
  fst (get_target_addr
         (mk_env ["4242"] StatFile StatDir false StatFile true
            (Some (encode_log [mk_sample 16 0 5; mk_sample 32 0 7;
                               mk_sample 16 0 9]))))
    = (key (mk_sample 16 0 5), value (mk_sample 16 0 9), true).
Proof.
  apply (first_address_last_count _ (mk_sample 16 0 5)
           [mk_sample 32 0 7; mk_sample 16 0 9]
           [mk_sample 16 0 5; mk_sample 32 0 7] [] (mk_sample 16 0 9)).
  - unfold healthy. cbn. repeat split; auto; discriminate.
  - reflexivity.
  - unfold Int64.max_int. cbn [length]. lia.
  - reflexivity.
  - reflexivity.
  - intros x Hx. by apply elem_of_nil in Hx.
Defined.

(** * Further properties of the decision engine *)

(** X14. [delayStates] panics, on an index out of range, exactly when the
    cycle index is negative. *)
Theorem delayStates_panics_iff_negative (w : Arr3.t bool) (i v : Z) :
  Int64.in_range i ->
  delayStates w i v = None <-> i < 0.
Proof.
  intros Hr. split.
  - intros Hnone. destruct (Z.lt_ge_cases i 0) as [|Hge]; [assumption|].
    destruct (delayStates_total w i v) as (d & s & Hs).
    { unfold Int64.in_range in Hr. lia. }
    congruence.
  - intros Hneg. unfold delayStates.
    destruct (Z.eqb_spec i 0) as [|_]; [lia|].
    assert (Hrem : Int64.rem i 3 = 0 \/ Int64.rem i 3 = -1
                   \/ Int64.rem i 3 = -2).
    { unfold Int64.rem. Z.quot_rem_to_equations. lia. }
    destruct Hrem as [H0|Hbad].
    + assert (Hmin : i <> Int64.min_int).
      { intros ->. vm_compute in H0. discriminate. }
      assert (Int64.sub i 1 = i - 1) as ->.
      { apply wrap_in_range. unfold Int64.in_range, Int64.min_int,
          Int64.max_int in *. lia. }
      assert (Int64.rem (i - 1) 3 = -1) as ->.
      { unfold Int64.rem in *. Z.quot_rem_to_equations. lia. }
      reflexivity.
    + destruct (Arr3.get w (Int64.rem (Int64.sub i 1) 3)); [|reflexivity].
      cbn [mbind option_bind delayStates_loop].
      destruct Hbad as [-> | ->]; reflexivity.
Qed.

Lemma delayStates_panics_iff_negative_witness :
  delayStates (Arr3.mk true true true) (-3) 500 = None <-> -3 < 0.
Proof.
  apply (delayStates_panics_iff_negative (Arr3.mk true true true) (-3) 500).
  unfold Int64.in_range, Int64.min_int, Int64.max_int. lia.
Defined.

(** X15. The loop of [delayStates] tests the same flag on each of its
    three rounds: run for any positive number of rounds it decides what
    its first round decides. *)
Theorem delayStates_loop_once (n : nat) (w : Arr3.t bool) (i : Z)
    (status : bool) :
  delayStates_loop (S n) w i status = delayStates_loop 1 w i status.
Proof.
  induction n as [|n IH]; [reflexivity|].
  change (delayStates_loop (S (S n)) w i status)
    with (b ← Arr3.get w (Int64.rem i 3);
          if b : bool then Some (Some (interval, status))
          else delayStates_loop (S n) w i status).
  rewrite IH. cbn [delayStates_loop].
  destruct (Arr3.get w (Int64.rem i 3)) as [[|]|]; reflexivity.
Qed.

(** ** Signs of converted and divided numbers *)

Lemma shr_nonneg mrs e n :
  0 <= shr_m mrs -> 0 <= shr_m (fst (shr mrs e n)).
Proof.
  intros Hm. unfold shr. destruct n as [|p|p]; cbn [fst]; try assumption.
  rewrite iter_shr_1_m by assumption. apply Z.div_pos; lia.
Qed.

Lemma binary_round_aux_nonneg sx mx e l :
  0 <= mx -> has_sign sx (binary_round_aux F64.prec F64.emax sx mx e l).
Proof.
  intros Hm. unfold binary_round_aux, shr_fexp.
  assert (H1 : 0 <= shr_m (shr_record_of_loc mx l))
    by (destruct l as [|[]]; exact Hm).
  pose proof (shr_nonneg (shr_record_of_loc mx l) e
    (fexp F64.prec F64.emax (Zdigits2 mx + e) - e) H1) as H2.
  destruct (shr (shr_record_of_loc mx l) e _) as [mrs' e'].
  cbn [fst] in H2.
  set (m1 := round_nearest_even (shr_m mrs') (loc_of_shr_record mrs')).
  assert (H3 : 0 <= m1).
  { subst m1. unfold round_nearest_even.
    destruct (loc_of_shr_record mrs') as [|[]]; try lia.
    destruct (Z.even (shr_m mrs')); lia. }
  assert (H4 : 0 <= shr_m (shr_record_of_loc m1 loc_Exact)) by exact H3.
  pose proof (shr_nonneg (shr_record_of_loc m1 loc_Exact) e'
    (fexp F64.prec F64.emax (Zdigits2 m1 + e') - e') H4) as H5.
  destruct (shr (shr_record_of_loc m1 loc_Exact) e' _) as [mrs2 e2].
  cbn [fst] in H5.
  destruct (shr_m mrs2) as [|q|q]; [reflexivity| |lia].
  destruct (e2 <=? F64.emax - F64.prec); reflexivity.
Qed.

Lemma of_int_sign n :
  n <> 0 ->
  (exists m e, F64.of_int n = S754_finite (n <? 0) m e)
  \/ F64.of_int n = S754_infinity (n <? 0).
Proof.
  intros Hn. destruct n as [|p|p]; [done| |].
  - apply of_int_pos.
  - unfold F64.of_int, binary_normalize, binary_round.
    destruct (shl_align p 0 _) as [mz ez] eqn:Hal.
    apply binary_round_aux_sign.
    unfold shl_align in Hal.
    destruct (fexp F64.prec F64.emax (Z.pos (digits2_pos p) + 0) - 0) eqn:Hd;
      injection Hal as <- <-;
      unfold SpecFloat.emin, fexp, F64.prec, F64.emax in *; lia.
Qed.

Lemma div_by_3_sign m e :
  has_sign true (F64.div (S754_finite true m e) F64.c_3_0).
Proof.
  unfold F64.div, F64.c_3_0, SFdiv.
  destruct (SFdiv_core_binary _ _ _ _ _ _) as [[mz ez] lz] eqn:Hd.
  apply binary_round_aux_nonneg.
  unfold SFdiv_core_binary in Hd.
  match type of Hd with
  | (let '(q, r) := Z.div_eucl ?a ?b in _) = _ =>
      pose proof (Z_div_mod a b ltac:(lia)) as Hdm;
      assert (Ha : 0 <= a);
      [|destruct (Z.div_eucl a b) as [q r]; injection Hd as <- _ _; nia]
  end.
  match goal with |- 0 <= match ?s with _ => _ end =>
    destruct s; try lia end.
  apply Z.shiftl_nonneg. lia.
Qed.

Lemma mean_of_negative_sum s :
  s < 0 -> F64.ltb (F64.div (F64.of_int s) F64.c_3_0) F64.c_100_0 = true.
Proof.
  intros Hs. destruct (of_int_sign s ltac:(lia)) as [(m & e & ->)| ->];
    (replace (s <? 0) with true by (symmetry; apply Z.ltb_lt; lia)).
  - pose proof (div_by_3_sign m e) as Hsg.
    destruct (F64.div _ _) as [[]|[]| |[] ? ?]; cbn in Hsg;
      try discriminate; try contradiction; reflexivity.
  - reflexivity.
Qed.

Lemma mean_of_small_sum s :
  0 <= s < 300 ->
  F64.ltb (F64.div (F64.of_int s) F64.c_3_0) F64.c_100_0 = true.
Proof.
  intros Hs.
  assert (Hall : forallb (fun n => F64.ltb (F64.div (F64.of_int (Z.of_nat n))
                                                    F64.c_3_0) F64.c_100_0)
                         (seq 0 300) = true) by (vm_compute; reflexivity).
  rewrite forallb_forall in Hall.
  specialize (Hall (Z.to_nat s)). rewrite Z2Nat.id in Hall by lia.
  apply Hall, in_seq. lia.
Qed.

(** X16. [judge_delay] never flags a window whose counts sum to less than
    300: an answer of true needs the 64-bit sum of the three counts to be
    at least 300, which for counts between 0 and 2^61 is their plain
    sum. *)
Theorem judge_delay_needs_volume (w : Arr3.t Z) (s : Z) :
  judge_delay w s = Some true ->
  300 <= jd_sum w
  /\ (Forall (fun x => 0 <= x <= 2 ^ 61) (Arr3.elems w) ->
      300 <= Arr3.e0 w + Arr3.e1 w + Arr3.e2 w).
Proof.
  intros Hj.
  assert (Hsum : 300 <= jd_sum w).
  { destruct (Z.lt_ge_cases (jd_sum w) 300) as [Hlt|]; [|assumption].
    assert (Hmean : F64.ltb (jd_mean w) F64.c_100_0 = true).
    { unfold jd_mean. destruct (Z.lt_ge_cases (jd_sum w) 0).
      - by apply mean_of_negative_sum.
      - apply mean_of_small_sum. lia. }
    unfold judge_delay in Hj.
    destruct (Arr3.get w s); [|discriminate].
    destruct (Arr3.get w _); [|discriminate].
    cbn [mbind option_bind] in Hj. rewrite Hmean in Hj.
    destruct (_ || _ || _); discriminate. }
  split; [assumption|]. intros Hb.
  assert (jd_sum w = Arr3.e0 w + Arr3.e1 w + Arr3.e2 w) as <-; [|assumption].
  unfold jd_sum, Arr3.elems in *. cbn [foldl].
  apply Forall_cons in Hb as [H0 Hb]. apply Forall_cons in Hb as [H1 Hb].
  apply Forall_cons in Hb as [H2 _].
  assert (H61 : 2 ^ 61 = 2305843009213693952) by reflexivity.
  unfold Int64.add.
  rewrite (wrap_in_range (0 + Arr3.e0 w))
    by (unfold Int64.in_range, Int64.min_int, Int64.max_int; lia).
  rewrite (wrap_in_range (0 + Arr3.e0 w + Arr3.e1 w))
    by (unfold Int64.in_range, Int64.min_int, Int64.max_int; lia).
  rewrite wrap_in_range
    by (unfold Int64.in_range, Int64.min_int, Int64.max_int; lia).
  lia.
Qed.

Lemma judge_delay_needs_volume_witness :
  300 <= jd_sum (Arr3.mk 500 500 500)
  /\ (Forall (fun x => 0 <= x <= 2 ^ 61) (Arr3.elems (Arr3.mk 500 500 500)) ->
      300 <= Arr3.e0 (Arr3.mk 500 500 500) + Arr3.e1 (Arr3.mk 500 500 500)
             + Arr3.e2 (Arr3.mk 500 500 500)).
Proof.
  apply (judge_delay_needs_volume (Arr3.mk 500 500 500) 0).
  vm_compute. reflexivity.
Defined.

(** X17. When the current slot repeats the count of the comparison slot
    and that count is not zero, the relative delta is zero and the window
    counts as stable whatever its spread: [judge_delay] answers true
    exactly when the mean is not below 100. *)
Theorem judge_delay_repeated_count (w : Arr3.t Z) (s c : Z) :
  0 <= s < 3 ->
  Arr3.get w s = Some c ->
  Arr3.get w ((s + 2) mod 3) = Some c ->
  c <> 0 ->
  judge_delay w s = Some (negb (F64.ltb (jd_mean w) F64.c_100_0)).
Proof.
  intros Hs Hcur Hprev Hc.
  rewrite <- slot_next in Hprev by assumption.
  rewrite (judge_delay_char w s c c Hcur Hprev).
  assert (Hcount : F64.leb (jd_count c c) F64.c_0_1 = true).
  { unfold jd_count. rewrite Z.gtb_ltb, Z.ltb_irrefl.
    unfold Int64.sub. rewrite Z.sub_diag. change (Int64.wrap 0) with 0.
    rewrite of_int_0.
    destruct (of_int_sign c Hc) as [(m & e & ->)| ->];
      destruct (c <? 0); reflexivity. }
  unfold jd_stable. by rewrite Hcount.
Qed.

Lemma judge_delay_repeated_count_witness :
  judge_delay (Arr3.mk 40 700 700) 2 =
    Some (negb (F64.ltb (jd_mean (Arr3.mk 40 700 700)) F64.c_100_0)).
Proof.
  apply (judge_delay_repeated_count (Arr3.mk 40 700 700) 2 700).
  - lia.
  - reflexivity.
  - reflexivity.
  - discriminate.
Defined.

(** * Further properties of the process selector *)

Lemma SFltb_irrefl a : SFltb a a = false.
Proof.
  unfold SFltb, SFcompare.
  destruct a as [s|s| |s m e]; try destruct s; try reflexivity;
    rewrite Z.compare_refl, Pos.compare_cont_refl; reflexivity.
Qed.

Lemma cmp_lt_trans (e1 e2 e3 : Z) (m1 m2 m3 : positive) :
  match e1 ?= e2 with
  | Lt => Lt | Gt => Gt | Eq => Pos.compare_cont Eq m1 m2 end = Lt ->
  match e2 ?= e3 with
  | Lt => Lt | Gt => Gt | Eq => Pos.compare_cont Eq m2 m3 end = Lt ->
  match e1 ?= e3 with
  | Lt => Lt | Gt => Gt | Eq => Pos.compare_cont Eq m1 m3 end = Lt.
Proof.
  change (Pos.compare_cont Eq m1 m2) with (Pos.compare m1 m2).
  change (Pos.compare_cont Eq m2 m3) with (Pos.compare m2 m3).
  change (Pos.compare_cont Eq m1 m3) with (Pos.compare m1 m3).
  destruct (Z.compare_spec e1 e2), (Z.compare_spec e2 e3),
    (Z.compare_spec e1 e3);
    try discriminate; try lia; try reflexivity;
    rewrite ?Pos.compare_lt_iff; intros; lia.
Qed.

Lemma cmp_neg_trans (e1 e2 e3 : Z) (m1 m2 m3 : positive) :
  match e1 ?= e2 with
  | Lt => Gt | Gt => Lt
  | Eq => CompOpp (Pos.compare_cont Eq m1 m2) end = Lt ->
  match e2 ?= e3 with
  | Lt => Gt | Gt => Lt
  | Eq => CompOpp (Pos.compare_cont Eq m2 m3) end = Lt ->
  match e1 ?= e3 with
  | Lt => Gt | Gt => Lt
  | Eq => CompOpp (Pos.compare_cont Eq m1 m3) end = Lt.
Proof.
  change (Pos.compare_cont Eq m1 m2) with (Pos.compare m1 m2).
  change (Pos.compare_cont Eq m2 m3) with (Pos.compare m2 m3).
  change (Pos.compare_cont Eq m1 m3) with (Pos.compare m1 m3).
  destruct (Z.compare_spec e1 e2), (Z.compare_spec e2 e3),
    (Z.compare_spec e1 e3);
    try discriminate; try lia; try reflexivity;
    destruct (Pos.compare_spec m1 m2), (Pos.compare_spec m2 m3),
      (Pos.compare_spec m1 m3); simpl; try discriminate; try reflexivity;
    intros; lia.
Qed.

Lemma SFltb_trans a b c :
  SFltb a b = true -> SFltb b c = true -> SFltb a c = true.
Proof.
  unfold SFltb.
  destruct (SFcompare a b) as [[]|] eqn:Hab; try discriminate.
  destruct (SFcompare b c) as [[]|] eqn:Hbc; try discriminate.
  intros _ _.
  assert (SFcompare a c = Some Lt) as ->; [|reflexivity].
  destruct a as [sa|sa| |sa ma ea], b as [sb|sb| |sb mb eb],
    c as [sc|sc| |sc mc ec];
    simpl in *; try discriminate;
    try destruct sa; try destruct sb; try destruct sc;
    try discriminate; try reflexivity;
    injection Hab as Hab; injection Hbc as Hbc; f_equal.
  - eapply cmp_neg_trans; eassumption.
  - eapply cmp_lt_trans; eassumption.
Qed.

Lemma Split_not_nil s sep : Selector.Split s sep <> [].
Proof.
  destruct s as [|c s]; cbn -[Ascii.eqb]; [discriminate|].
  destruct (Ascii.eqb c sep); [discriminate|].
  destruct (Selector.Split s sep); discriminate.
Qed.

Lemma Split_free sep f :
  Selector.free_of sep f = true -> Selector.Split f sep = [f].
Proof.
  induction f as [|c f IH];
    cbn -[Ascii.eqb]; [reflexivity|].
  destruct (Ascii.eqb c sep); cbn [negb andb]; [discriminate|].
  intros Hf. rewrite (IH Hf). reflexivity.
Qed.

Lemma Split_free_sep sep f r :
  Selector.free_of sep f = true ->
  Selector.Split (f +:+ String sep r) sep = f :: Selector.Split r sep.
Proof.
  induction f as [|c f IH].
  - intros _. change ("" +:+ String sep r) with (String sep r).
    cbn -[Ascii.eqb]. rewrite Ascii.eqb_refl. reflexivity.
  - change (String c f +:+ String sep r)
      with (String c (f +:+ String sep r)).
    cbn -[Ascii.eqb].
    destruct (Ascii.eqb c sep); cbn [negb andb]; [discriminate|].
    intros Hf. rewrite (IH Hf). reflexivity.
Qed.

Lemma Split_Join fs :
  fs <> [] ->
  Forall (fun f => Selector.free_of " " f = true) fs ->
  Selector.Split (Selector.Join fs " ") " " = fs.
Proof.
  induction fs as [|f [|g fs] IH]; [done| |].
  - intros _ Hf. apply Forall_cons in Hf as [Hf _].
    cbn. by apply Split_free.
  - intros _ Hf. apply Forall_cons in Hf as [Hf Hfs].
    change (Selector.Join (f :: g :: fs) " ")
      with (f +:+ String " " (Selector.Join (g :: fs) " ")).
    rewrite Split_free_sep by done. f_equal. by apply IH.
Qed.

(** X18.  The join and the split that [get_pid] applies to a line change
    nothing: when [strings.Fields] finds at least one field and no field
    holds a blank, [datas] is the list of the fields. *)
Theorem datas_of_fields (Fields : string -> list string) item :
  Fields item <> [] ->
  Forall (fun f => Selector.free_of " " f = true) (Fields item) ->
  Selector.datas_of Fields item = Fields item.
Proof. apply Split_Join. Qed.

Lemma datas_of_fields_witness :
  Selector.datas_of Selector.FieldsASCII "nobody  42   1.5 0.0" =
  Selector.FieldsASCII "nobody  42   1.5 0.0".
Proof.
  apply (datas_of_fields Selector.FieldsASCII "nobody  42   1.5 0.0").
  - vm_compute. discriminate.
  - vm_compute. repeat constructor.
Defined.

Lemma row_None Fields ParseFloat st item :
  Selector.row Fields ParseFloat st item = None <->
  (length (Selector.datas_of Fields item) <> 1
   /\ length (Selector.datas_of Fields item) < 10)%nat.
Proof.
  unfold Selector.row.
  destruct (Selector.datas_of Fields item)
    as [|d0 [|d1 [|d2 [|d3 [|d4 [|d5 [|d6 [|d7 [|d8 [|d9 ds]]]]]]]]]];
    cbn; try (split; [intros _; lia|reflexivity]).
  - split; [discriminate|lia].
  - split; [|cbn; lia].
    repeat match goal with
           | |- context [if ?b then _ else _] => destruct b
           end; discriminate.
Qed.

Lemma rows_None Fields ParseFloat items : forall st,
  Selector.rows Fields ParseFloat st items = None <->
  exists item, item ∈ items
    /\ (length (Selector.datas_of Fields item) <> 1
        /\ length (Selector.datas_of Fields item) < 10)%nat.
Proof.
  induction items as [|item items IH]; intros st; cbn.
  - split; [discriminate|]. intros (item & Hi & _).
    by apply elem_of_nil in Hi.
  - destruct (Selector.row Fields ParseFloat st item) as [st'|] eqn:Hr;
      cbn.
    + rewrite IH. split; intros (i & Hi & Hl).
      * exists i. split; [by apply list_elem_of_further|done].
      * apply elem_of_cons in Hi as [->|Hi]; [|by exists i].
        apply (row_None Fields ParseFloat st) in Hl. congruence.
    + split; [intros _|done]. exists item.
      split; [apply list_elem_of_here|].
      by apply (row_None Fields ParseFloat st).
Qed.

(** X19.  [get_pid] panics, by an index out of range at [datas[9]] or
    before, exactly when some line of the [ps] output has between two and
    nine fields; lines of one field (blank lines included) are skipped and
    lines of ten or more are read. *)
Theorem get_pid_panics_iff_short_row
  (Fields : string -> list string) (ParseFloat : string -> F64.float) out :
  Selector.get_pid Fields ParseFloat (Some out) = None <->
  exists item, item ∈ Selector.Split out "010"
    /\ (2 <= length (Selector.datas_of Fields item) <= 9)%nat.
Proof.
  unfold Selector.get_pid.
  destruct (Selector.rows Fields ParseFloat Selector.no_selection
              (Selector.Split out "010")) as [st|] eqn:Hr; cbn.
  - split; [discriminate|]. intros (item & Hi & Hl).
    assert (Selector.rows Fields ParseFloat Selector.no_selection
              (Selector.Split out "010") = None) as Hn; [|congruence].
    apply rows_None. exists item. split; [done|lia].
  - split; [intros _|done].
    apply rows_None in Hr as (item & Hi & Hl). exists item.
    split; [done|].
    pose proof (Split_not_nil
      (Selector.Join (Fields item) " ") " ") as Hne.
    unfold Selector.datas_of in *.
    destruct (Selector.Split (Selector.Join (Fields item) " ") " ");
      [done|cbn in *; lia].
Qed.

Lemma row_best Fields ParseFloat seen st item st' :
  Selector.best_of Fields ParseFloat seen st ->
  Selector.row Fields ParseFloat st item = Some st' ->
  Selector.best_of Fields ParseFloat (seen ++ [item]) st'.
Proof.
  intros [Hmax Hsel] Hrow.
  assert (Hz : F64.ltb F64.zero (Selector.max_cpu st) = true
               \/ Selector.max_cpu st = F64.zero).
  { destruct Hsel as [->|(i & _ & _ & _ & -> & Hp)]; [by right|by left]. }
  assert (Hkeep : (Selector.considered Fields item = true ->
             F64.ltb (Selector.max_cpu st)
               (Selector.cpu_of Fields ParseFloat item) = false) ->
           Selector.best_of Fields ParseFloat (seen ++ [item]) st).
  { intros Hi. split.
    - intros i Hin Hc. apply elem_of_app in Hin as [Hin|Hin];
        [by apply Hmax|].
      apply list_elem_of_singleton in Hin as ->. by apply Hi.
    - destruct Hsel as [->|(i & Hin & Hc & Hp & Hm & Hpos)]; [by left|].
      right. exists i. rewrite elem_of_app. by auto. }
  revert Hrow. unfold Selector.row.
  destruct (length (Selector.datas_of Fields item) =? 1)%nat eqn:Hlen.
  { intros [= <-]. apply Hkeep. unfold Selector.considered.
    rewrite Hlen. discriminate. }
  destruct (Selector.datas_of Fields item !! 1%nat) as [pid|] eqn:H1;
    [cbn|discriminate].
  destruct (Selector.datas_of Fields item !! 2%nat) as [cpu|] eqn:H2;
    [cbn|discriminate].
  destruct (Selector.datas_of Fields item !! 3%nat) as [mem|] eqn:H3;
    [cbn|discriminate].
  destruct (Selector.datas_of Fields item !! 9%nat) as [time|] eqn:H9;
    [cbn|discriminate].
  assert (Hcpu : Selector.cpu_of Fields ParseFloat item = ParseFloat cpu).
  { unfold Selector.cpu_of. by rewrite H2. }
  assert (Hcons : Selector.considered Fields item
            = negb (mem =? "0.0")%string || negb (cpu =? "0.0")%string
              || negb (time =? "0:00")%string).
  { unfold Selector.considered. by rewrite Hlen, H2, H3, H9. }
  rewrite <- Hcons.
  destruct (Selector.considered Fields item) eqn:Hc.
  2:{ intros [= <-]. by apply Hkeep. }
  destruct (F64.ltb (Selector.max_cpu st) (ParseFloat cpu)) eqn:Hlt.
  2:{ intros [= <-]. apply Hkeep. intros _. by rewrite Hcpu. }
  intros [= <-]. split; cbn.
  - intros i Hin Hci. apply elem_of_app in Hin as [Hin|Hin].
    + destruct (F64.ltb (ParseFloat cpu)
                  (Selector.cpu_of Fields ParseFloat i)) eqn:Hlt'; [|done].
      rewrite <- (Hmax i Hin Hci). symmetry.
      by apply (SFltb_trans _ (ParseFloat cpu)).
    + apply list_elem_of_singleton in Hin as ->. rewrite Hcpu.
      apply SFltb_irrefl.
  - right. exists item. rewrite elem_of_app, list_elem_of_singleton.
    repeat split; auto. rewrite Hcpu.
    destruct Hz as [Hz|Hz].
    + by apply (SFltb_trans _ (Selector.max_cpu st)).
    + by rewrite <- Hz.
Qed.

Lemma rows_best Fields ParseFloat items : forall seen st st',
  Selector.best_of Fields ParseFloat seen st ->
  Selector.rows Fields ParseFloat st items = Some st' ->
  Selector.best_of Fields ParseFloat (seen ++ items) st'.
Proof.
  induction items as [|item items IH]; intros seen st st' Hb; cbn.
  - intros [= <-]. by rewrite app_nil_r.
  - destruct (Selector.row Fields ParseFloat st item) as [st1|] eqn:Hr;
      [cbn|discriminate].
    intros Hrs. rewrite (cons_middle item seen items), app_assoc.
    eapply IH; [|exact Hrs]. by eapply row_best.
Qed.

Lemma best_of_nil Fields ParseFloat :
  Selector.best_of Fields ParseFloat [] Selector.no_selection.
Proof.
  split; [|by left]. intros i Hi. by apply elem_of_nil in Hi.
Qed.

(** X20.  The process [get_pid] returns is the second field of a line
    that is not idle (memory, CPU or time field differs from "0.0",
    "0.0", "0:00"), whose parsed CPU share is above 0, and no line that
    is not idle has a strictly larger share. *)
Theorem get_pid_selects_max
  (Fields : string -> list string) (ParseFloat : string -> F64.float)
  out pid :
  Selector.get_pid Fields ParseFloat (Some out) = Some [pid] ->
  exists item, item ∈ Selector.Split out "010"
    /\ Selector.considered Fields item = true
    /\ Selector.datas_of Fields item !! 1%nat = Some pid
    /\ F64.ltb F64.zero (Selector.cpu_of Fields ParseFloat item) = true
    /\ forall other, other ∈ Selector.Split out "010" ->
         Selector.considered Fields other = true ->
         F64.ltb (Selector.cpu_of Fields ParseFloat item)
           (Selector.cpu_of Fields ParseFloat other) = false.
Proof.
  unfold Selector.get_pid.
  destruct (Selector.rows Fields ParseFloat Selector.no_selection
              (Selector.Split out "010")) as [st|] eqn:Hr;
    [cbn|discriminate].
  apply (rows_best _ _ _ [] _ _ (best_of_nil Fields ParseFloat)) in Hr.
  destruct Hr as [Hmax Hsel]. cbn in Hmax, Hsel.
  destruct (Selector.target_pid st =? "-1")%string eqn:Hp;
    [discriminate|].
  intros [= <-].
  destruct Hsel as [->|(item & Hin & Hc & H1 & Hm & Hpos)];
    [discriminate|].
  exists item. repeat split; auto.
  intros other Ho Hco. rewrite <- Hm. by apply Hmax.
Qed.

Lemma get_pid_selects_max_witness :
  exists item,
    item ∈ Selector.Split
      "nobody 7 12.5 0.3 1 2 ? Sl 10:00 0:07 exe" "010"
    /\ Selector.considered Selector.FieldsASCII item = true
    /\ Selector.datas_of Selector.FieldsASCII item !! 1%nat = Some "7"
    /\ F64.ltb F64.zero
         (Selector.cpu_of Selector.FieldsASCII
            Selector.ParseFloatDecimal item) = true
    /\ forall other,
         other ∈ Selector.Split
           "nobody 7 12.5 0.3 1 2 ? Sl 10:00 0:07 exe" "010" ->
         Selector.considered Selector.FieldsASCII other = true ->
         F64.ltb
           (Selector.cpu_of Selector.FieldsASCII
              Selector.ParseFloatDecimal item)
           (Selector.cpu_of Selector.FieldsASCII
              Selector.ParseFloatDecimal other) = false.
Proof.
  apply (get_pid_selects_max Selector.FieldsASCII
           Selector.ParseFloatDecimal
           "nobody 7 12.5 0.3 1 2 ? Sl 10:00 0:07 exe" "7").
  vm_compute. reflexivity.
Defined.

(** X21.  When [get_pid] returns no process and no line carries the
    pid "-1", every line is idle or has a parsed CPU share that is not
    above 0: a busy line is never passed over. *)
Theorem get_pid_empty_means_idle
  (Fields : string -> list string) (ParseFloat : string -> F64.float)
  out :
  Selector.get_pid Fields ParseFloat (Some out) = Some [] ->
  (forall item, item ∈ Selector.Split out "010" ->
     Selector.datas_of Fields item !! 1%nat <> Some "-1") ->
  forall item, item ∈ Selector.Split out "010" ->
    Selector.considered Fields item = true ->
    F64.ltb F64.zero (Selector.cpu_of Fields ParseFloat item) = false.
Proof.
  unfold Selector.get_pid.
  destruct (Selector.rows Fields ParseFloat Selector.no_selection
              (Selector.Split out "010")) as [st|] eqn:Hr;
    [cbn|discriminate].
  apply (rows_best _ _ _ [] _ _ (best_of_nil Fields ParseFloat)) in Hr.
  destruct Hr as [Hmax Hsel]. cbn in Hmax, Hsel.
  destruct (Selector.target_pid st =? "-1")%string eqn:Hp;
    [|discriminate].
  apply String.eqb_eq in Hp.
  intros _ Hpid item Hin Hc.
  destruct Hsel as [->|(i & Hi & _ & H1 & _)].
  - by apply Hmax.
  - rewrite Hp in H1. by destruct (Hpid i Hi).
Qed.

Lemma get_pid_empty_means_idle_witness :
  F64.ltb F64.zero
    (Selector.cpu_of Selector.FieldsASCII Selector.ParseFloatDecimal
       "nobody 7 0.0 0.3 1 2 ? Sl 10:00 0:00 exe") = false.
Proof.
  apply (get_pid_empty_means_idle Selector.FieldsASCII
           Selector.ParseFloatDecimal
           "nobody 7 0.0 0.3 1 2 ? Sl 10:00 0:00 exe").
  - vm_compute. reflexivity.
  - intros item Hi. apply list_elem_of_singleton in Hi as ->.
    vm_compute. discriminate.
  - vm_compute. apply list_elem_of_here.
  - vm_compute. reflexivity.
Defined.

(** X22.  [get_pid] returns at most one process and never the
    placeholder "-1"; when the [ps] pipeline fails it returns none. *)
Theorem get_pid_at_most_one
  (Fields : string -> list string) (ParseFloat : string -> F64.float)
  output pids :
  Selector.get_pid Fields ParseFloat output = Some pids ->
  (length pids <= 1)%nat /\ ("-1" ∉ pids) /\ (output = None -> pids = []).
Proof.
  unfold Selector.get_pid. destruct output as [out|].
  - destruct (Selector.rows Fields ParseFloat Selector.no_selection
                (Selector.Split out "010")) as [st|]; [cbn|discriminate].
    destruct (Selector.target_pid st =? "-1")%string eqn:Hp;
      intros [= <-]; cbn.
    + split; [lia|]. split; [|done]. apply not_elem_of_nil.
    + split; [lia|]. split; [|done]. intros Hin.
      apply list_elem_of_singleton in Hin.
      apply String.eqb_neq in Hp. congruence.
  - intros [= <-]. cbn. split; [lia|]. split; [|done].
    apply not_elem_of_nil.
Qed.

Lemma get_pid_at_most_one_witness :
  (length ["7"] <= 1)%nat /\ ("-1" ∉ ["7"])
  /\ (Some "nobody 7 12.5 0.3 1 2 ? Sl 10:00 0:07 exe" = None ->
      ["7"] = []).
Proof.
  apply (get_pid_at_most_one Selector.FieldsASCII
           Selector.ParseFloatDecimal
           (Some "nobody 7 12.5 0.3 1 2 ? Sl 10:00 0:07 exe") ["7"]).
  vm_compute. reflexivity.
Defined.
